(** * Homi request scoping dialogue (src/components/RequestFlow.tsx)

    A shallow embedding of the slot-filling dialogue of the [RequestFlow]
    component: the field extractors, the missing-field policy
    [getMissingInfo], the turn function [processUserInput], the controller
    [handleSubmit] and the finalization step [generateFinalRequest].

    Text is modelled as [string] (8-bit characters); the JavaScript string
    primitives used by the component are written out on that type, with
    letter case and white space as they are in ASCII.  React
    state is passed explicitly: one record holds what the component keeps in
    [useState] cells, and one call of [handleSubmit] is one transition. *)

From Stdlib Require Import Ascii String List Bool Arith Lia.
From stdpp Require Import base option list gmap strings.

(** ** JavaScript string primitives *)

Module Js.

(** [c] is one of 'A'..'Z'. *)
Definition isUpper (c : ascii) : bool :=
  let n := nat_of_ascii c in (65 <=? n) && (n <=? 90).

(** [c] is one of 'a'..'z'. *)
Definition isLower (c : ascii) : bool :=
  let n := nat_of_ascii c in (97 <=? n) && (n <=? 122).

(** [c] is one of '0'..'9' (the class \d without the unicode flag). *)
Definition isDigit (c : ascii) : bool :=
  let n := nat_of_ascii c in (48 <=? n) && (n <=? 57).

(** White space and line terminators removed by [String.prototype.trim]:
    TAB, LF, VT, FF, CR and SPACE. *)
Definition isSpace (c : ascii) : bool :=
  let n := nat_of_ascii c in ((9 <=? n) && (n <=? 13)) || (n =? 32).

Definition lowerChar (c : ascii) : ascii :=
  if isUpper c then ascii_of_nat (nat_of_ascii c + 32) else c.

(** [String.prototype.toLowerCase]. *)
Fixpoint toLowerCase (s : string) : string :=
  match s with
  | EmptyString => EmptyString
  | String c s' => String (lowerChar c) (toLowerCase s')
  end.

(** [String.prototype.includes]: [kw] occurs in [s] as a substring. *)
Fixpoint includes (s kw : string) : bool :=
  String.prefix kw s ||
  match s with
  | EmptyString => false
  | String _ s' => includes s' kw
  end.

Fixpoint trimStart (s : string) : string :=
  match s with
  | EmptyString => EmptyString
  | String c s' => if isSpace c then trimStart s' else s
  end.

Fixpoint trimEnd (s : string) : string :=
  match s with
  | EmptyString => EmptyString
  | String c s' =>
      match trimEnd s' with
      | EmptyString => if isSpace c then EmptyString else String c EmptyString
      | t => String c t
      end
  end.

(** [String.prototype.trim]. *)
Definition trim (s : string) : string := trimEnd (trimStart s).

(** Truthiness of a string value: every string but the empty one. *)
Definition truthyStr (s : string) : bool :=
  match s with EmptyString => false | String _ _ => true end.

(** Truthiness of an optional string ([None] is [undefined] or [null]). *)
Definition truthy (v : option string) : bool :=
  match v with None => false | Some s => truthyStr s end.

(** [a || b] on strings. *)
Definition strOr (a : option string) (b : string) : string :=
  match a with
  | Some s => if truthyStr s then s else b
  | None => b
  end.

(** [s.substring(0, n)]. *)
Fixpoint take (n : nat) (s : string) : string :=
  match n, s with
  | S n', String c s' => String c (take n' s')
  | _, _ => EmptyString
  end.

End Js.

(** ** Regular expressions

    The three location patterns and the budget pattern use literal
    characters, the classes [A-Z], [a-z] and \d, the greedy quantifiers
    [?], [*] and [+], and one optional group.  A pattern is
    run by backtracking: [matches r s] lists, in the order in which the
    backtracking matcher tries them, the remainders of [s] after every way
    of matching [r] at the start of [s].  The head of that list is the match
    the engine reports. *)

Module Regex.

Inductive atom : Type :=
| Chr (c : ascii)
| Upper
| Lower
| Digit.

Inductive re : Type :=
| One (a : atom)
| Many (a : atom)            (* a*  (greedy) *)
| Many1 (a : atom)           (* a+  (greedy) *)
| Opt (r : re)               (* r?  (greedy) *)
| Seq (r1 r2 : re).

Definition test (a : atom) (c : ascii) : bool :=
  match a with
  | Chr d => Ascii.eqb c d
  | Upper => Js.isUpper c
  | Lower => Js.isLower c
  | Digit => Js.isDigit c
  end.

Definition one (a : atom) (s : string) : list string :=
  match s with
  | String c s' => if test a c then [s'] else []
  | EmptyString => []
  end.

(** Greedy star: the longest run first, then each shorter one. *)
Fixpoint many (a : atom) (s : string) : list string :=
  match s with
  | String c s' => if test a c then many a s' ++ [s] else [s]
  | EmptyString => [s]
  end.

Fixpoint matches (r : re) (s : string) : list string :=
  match r with
  | One a => one a s
  | Many a => many a s
  | Many1 a => flat_map (many a) (one a s)
  | Opt r' => matches r' s ++ [s]
  | Seq r1 r2 => flat_map (matches r2) (matches r1 s)
  end.

(** The text consumed when [s] is left with remainder [rest]. *)
Definition consumed (s rest : string) : string :=
  Js.take (String.length s - String.length rest) s.

(** Match [r] at the start of [s]: the matched text. *)
Definition matchAt (r : re) (s : string) : option string :=
  match matches r s with
  | rest :: _ => Some (consumed s rest)
  | [] => None
  end.

(** [s] starts with the literal [pre]: what follows it. *)
Fixpoint skip (pre s : string) : option string :=
  match pre, s with
  | EmptyString, _ => Some s
  | String a pre', String c s' => if Ascii.eqb a c then skip pre' s' else None
  | String _ _, EmptyString => None
  end.

(** Leftmost match of the literal [pre] followed by the group [g]; the
    result is the text captured by the group. *)
Fixpoint search (pre : string) (g : re) (s : string) : option string :=
  match
    match skip pre s with
    | Some s' => matchAt g s'
    | None => None
    end
  with
  | Some m => Some m
  | None =>
      match s with
      | EmptyString => None
      | String _ s' => search pre g s'
      end
  end.

End Regex.

(** ** Field extractors *)

Definition extractTaskType (text : string) : string :=
  let lowerText := Js.toLowerCase text in
  if Js.includes lowerText "trash" || Js.includes lowerText "garbage" then "Trash Removal"
  else if Js.includes lowerText "photo" || Js.includes lowerText "photographer" then "Photography"
  else if Js.includes lowerText "clean" || Js.includes lowerText "cleaning" then "Cleaning"
  else if Js.includes lowerText "wifi" || Js.includes lowerText "internet"
          || Js.includes lowerText "tech" then "Tech Support"
  else if Js.includes lowerText "design" || Js.includes lowerText "logo"
          || Js.includes lowerText "graphic" then "Graphic Design"
  else if Js.includes lowerText "move" || Js.includes lowerText "moving" then "Moving Services"
  else if Js.includes lowerText "repair" || Js.includes lowerText "fix" then "Repair Services"
  else "General Service".

Module LocationPatterns.
Import Regex.

(** Concatenation of the pieces of a pattern, in order. *)
Definition cat (rs : list re) (last : re) : re := foldr Seq last rs.

Definition space : re := One (Chr " ").
Definition comma : re := One (Chr ",").

(** The capture group of the first and of the third pattern:
    [A-Z][a-z]+ ?[A-Z]*[a-z]*,? ?[A-Z]{2} *)
Definition cityState : re :=
  cat [One Upper; Many1 Lower; Opt space; Many Upper; Many Lower;
       Opt comma; Opt space; One Upper] (One Upper).

(** The capture group of the second pattern:
    [A-Z][a-z]+ ?[A-Z]*[a-z]* and nothing after it. *)
Definition placeName : re :=
  cat [One Upper; Many1 Lower; Opt space; Many Upper] (Many Lower).

(** The [locationPatterns] array; each pattern is a literal prefix
    followed by its capture group. *)
Definition locationPatterns : list (string * re) :=
  [ ("in ", cityState); ("at ", placeName); ("", cityState) ].

End LocationPatterns.

(** [for (const pattern of locationPatterns)]: the first pattern that
    matches anywhere in the text gives its capture group. *)
Fixpoint firstPattern (ps : list (string * Regex.re)) (text : string) : option string :=
  match ps with
  | [] => None
  | (pre, g) :: ps' =>
      match Regex.search pre g text with
      | Some m => Some m
      | None => firstPattern ps' text
      end
  end.

Definition extractLocation (text : string) : option string :=
  firstPattern LocationPatterns.locationPatterns text.

(** The pattern of [extractBudget]: a dollar sign, \d+, and optionally a
    dash, an optional dollar sign and \d+ again. *)
Definition budgetPattern : Regex.re :=
  Regex.Seq (Regex.One (Regex.Chr "$"))
    (Regex.Seq (Regex.Many1 Regex.Digit)
       (Regex.Opt (Regex.Seq (Regex.One (Regex.Chr "-"))
          (Regex.Seq (Regex.Opt (Regex.One (Regex.Chr "$")))
             (Regex.Many1 Regex.Digit))))).

(** [text.match(...)] with the global flag lists the matched texts from
    left to right; [budgetMatch[0]] is the leftmost one. *)
Definition extractBudget (text : string) : option string :=
  Regex.search "" budgetPattern text.

Definition extractTimeline (text : string) : option string :=
  let lowerText := Js.toLowerCase text in
  if Js.includes lowerText "today" || Js.includes lowerText "asap" then Some "Today"
  else if Js.includes lowerText "tomorrow" then Some "Tomorrow"
  else if Js.includes lowerText "this week" then Some "This week"
  else if Js.includes lowerText "next week" then Some "Next week"
  else if Js.includes lowerText "weekend" then Some "This weekend"
  else None.

(** ** Data model *)

(** [interface ScopingData]: every property is optional; [None] is an
    absent ([undefined]) property.  [additionalInfo] is an object used as a
    map from names to strings. *)
Record ScopingData : Type := mkScopingData {
  taskType : option string;
  location : option string;
  budget : option string;
  timeline : option string;
  details : option string;
  additionalInfo : option (gmap string string)
}.

(** [useState<ScopingData>({})] *)
Definition emptyData : ScopingData := mkScopingData None None None None None None.

(** [data.additionalInfo?.specific] *)
Definition specific (data : ScopingData) : option string :=
  additionalInfo data ≫= (λ info : gmap string string, info !! "specific").

(** The tags pushed by [getMissingInfo]: 'location', 'budget', 'timeline'
    and 'specific'. *)
Inductive questionType : Type :=
| QLocation
| QBudget
| QTimeline
| QSpecific.

#[global] Instance questionType_eq_dec : EqDecision questionType.
Proof. solve_decision. Defined.

Definition questionName (q : questionType) : string :=
  match q with
  | QLocation => "location"
  | QBudget => "budget"
  | QTimeline => "timeline"
  | QSpecific => "specific"
  end.

(** ** Question tables *)

(** What reading a property of an object literal can give: a string stored
    in the literal itself, or a member inherited from [Object.prototype]. *)
Inductive member : Type :=
| Own (text : string)
| Inherited (name : string).

(** The property names every object literal inherits. *)
Definition objectPrototypeKeys : list string :=
  [ "constructor"; "__proto__"; "hasOwnProperty"; "isPrototypeOf";
    "propertyIsEnumerable"; "toLocaleString"; "toString"; "valueOf";
    "__defineGetter__"; "__defineSetter__"; "__lookupGetter__";
    "__lookupSetter__" ].

(** Reading [table[key]]. *)
Definition readProperty (table : gmap string string) (key : string) : option member :=
  match table !! key with
  | Some v => Some (Own v)
  | None =>
      if bool_decide (key ∈ objectPrototypeKeys) then Some (Inherited key) else None
  end.

(** Truthiness of a property read: inherited members are functions or
    objects, hence truthy. *)
Definition truthyMember (m : option member) : bool :=
  match m with
  | Some (Own v) => Js.truthyStr v
  | Some (Inherited _) => true
  | None => false
  end.

(** The text a member has inside a template literal. *)
Definition render (m : member) : string :=
  match m with
  | Own v => v
  | Inherited name =>
      if String.eqb name "__proto__" then "[object Object]"
      else if String.eqb name "constructor" then "function Object() { [native code] }"
      else "function " +:+ name +:+ "() { [native code] }"
  end.

(** The [questions] literal of [getTaskSpecificQuestion]. *)
Definition taskQuestions : gmap string string :=
  list_to_map
    [ ("Trash Removal", "What type of items need removal?");
      ("Photography", "What type of photography session?");
      ("Cleaning", "What type of cleaning do you need?");
      ("Tech Support", "What specific tech help do you need?");
      ("Moving Services", "What size move is this?");
      ("Graphic Design", "What type of design work?") ].

(** [questions[taskType || ''] || null]; [None] is [null]. *)
Definition getTaskSpecificQuestion (taskType : option string) : option member :=
  let found := readProperty taskQuestions (Js.strOr taskType "") in
  if truthyMember found then found else None.

(** ** Missing-field policy *)

Definition getMissingInfo (data : ScopingData) (originalText : string) : list questionType :=
  let missing := [] in
  let missing := if negb (Js.truthy (location data)) then missing ++ [QLocation] else missing in
  let missing := if negb (Js.truthy (budget data)) then missing ++ [QBudget] else missing in
  let missing := if negb (Js.truthy (timeline data)) then missing ++ [QTimeline] else missing in
  let missing :=
    if Js.truthy (taskType data) && negb (Js.truthy (specific data)) then
      let needsSpecific := getTaskSpecificQuestion (taskType data) in
      if truthyMember needsSpecific then missing ++ [QSpecific] else missing
    else missing in
  missing.

(** ** Question generator *)

(** [questions[questionType] || ""] *)
Definition getNextQuestion (questionType : questionType) (taskType : option string) : member :=
  match questionType with
  | QLocation => Own "Where are you located?"
  | QBudget => Own "What's your budget for this?"
  | QTimeline => Own "When do you need this done?"
  | QSpecific => default (Own "") (getTaskSpecificQuestion taskType)
  end.

Definition newline : string := String (ascii_of_nat 10) EmptyString.

(** [parts.join('\n')] *)
Fixpoint join (sep : string) (parts : list string) : string :=
  match parts with
  | [] => ""
  | [p] => p
  | p :: ps => p +:+ sep +:+ join sep ps
  end.

Definition generateSummary (data : ScopingData) : string :=
  let part (label : string) (v : option string) : list string :=
    if Js.truthy v then [label +:+ default "" v] else [] in
  join newline
    (part "🔧 Service: " (taskType data) ++
     part "📍 Location: " (location data) ++
     part "💰 Budget: " (budget data) ++
     part "⏰ Timeline: " (timeline data) ++
     part "📝 Details: " (specific data)).

(** ** Dialogue turn *)

(** [interface Message]; the time stamp and the quick-reply lists are
    display data and are left out. *)
Inductive sender : Type := User | Ai | System.

Record Message : Type := mkMessage {
  type : sender;
  content : string
}.

(** The object returned by [processUserInput]. *)
Module Response.
Record t : Type := mk {
  message : string;
  updatedData : ScopingData;
  isComplete : bool
}.
End Response.

(** [if (extracted) updatedData.slot = extracted] *)
Definition assignIfFound (extracted old : option string) : option string :=
  if Js.truthy extracted then extracted else old.

(** [updatedData.taskType?.toLowerCase()] inside a template literal. *)
Definition lowerTaskType (data : ScopingData) : string :=
  match taskType data with
  | Some t => Js.toLowerCase t
  | None => "undefined"
  end.

(** The object returned at the end of either branch of
    [processUserInput], built from the list of fields still missing; [ask]
    and [finished] are the two message templates of the branch. *)
Definition reply (updatedData : ScopingData) (missingInfo : list questionType)
    (ask : string -> string) (finished : string) : Response.t :=
  match missingInfo with
  | top :: _ =>
      let nextQuestion := getNextQuestion top (taskType updatedData) in
      Response.mk (ask (render nextQuestion)) updatedData false
  | [] => Response.mk finished updatedData true
  end.

(** [{ ...updatedData.additionalInfo, specific: userInput }] *)
Definition withSpecific (info : option (gmap string string)) (userInput : string)
    : option (gmap string string) :=
  Some (<["specific" := userInput]> (default ∅ info)).

(** The slot write of a later turn, by the field being asked. *)
Definition store (currentQuestion : option questionType) (userInput : string)
    (d : ScopingData) : ScopingData :=
  match currentQuestion with
  | Some QLocation =>
      mkScopingData (taskType d) (Some userInput) (budget d) (timeline d) (details d)
        (additionalInfo d)
  | Some QBudget =>
      mkScopingData (taskType d) (location d)
        (Some (Js.strOr (extractBudget userInput) userInput)) (timeline d) (details d)
        (additionalInfo d)
  | Some QTimeline =>
      mkScopingData (taskType d) (location d) (budget d) (Some userInput) (details d)
        (additionalInfo d)
  | Some QSpecific =>
      mkScopingData (taskType d) (location d) (budget d) (timeline d) (details d)
        (withSpecific (additionalInfo d) userInput)
  | None => d
  end.

(** [processUserInput]; [messages] is the message list the component
    closed over when the turn was submitted. *)
Definition processUserInput (messages : list Message) (userInput : string)
    (currentData : ScopingData) : Response.t :=
  if length messages <=? 1 then
    (* First message - extract initial task type and any provided details *)
    let extractedLocation := extractLocation userInput in
    let extractedBudget := extractBudget userInput in
    let extractedTimeline := extractTimeline userInput in
    let updatedData :=
      mkScopingData (Some (extractTaskType userInput))
        (assignIfFound extractedLocation (location currentData))
        (assignIfFound extractedBudget (budget currentData))
        (assignIfFound extractedTimeline (timeline currentData))
        (Some userInput)
        (additionalInfo currentData) in
    let missingInfo := getMissingInfo updatedData userInput in
    reply updatedData missingInfo
      (λ nextQuestion,
         "Perfect! I understand you need " +:+ lowerTaskType updatedData +:+ ". "
         +:+ nextQuestion)
      ("Excellent! I have everything I need. Let me find the best "
       +:+ lowerTaskType updatedData +:+ " providers in your area...")
  else
    (* Process subsequent responses *)
    let missingBefore := getMissingInfo currentData (Js.strOr (details currentData) "") in
    let currentQuestion := head missingBefore in
    let updatedData := store currentQuestion userInput currentData in
    let missingInfo := getMissingInfo updatedData (Js.strOr (details updatedData) "") in
    reply updatedData missingInfo
      (λ nextQuestion, "Got it! " +:+ nextQuestion)
      ("Perfect! Here's what I understand:" +:+ newline +:+ newline
       +:+ generateSummary updatedData +:+ newline +:+ newline
       +:+ "Let me find you the best providers...").

(** ** Finalization *)

(** JavaScript numbers are carried through unchanged; no arithmetic is
    done on them here. *)
Definition number : Type := Z.

(** What the generative-object collaborator hands back inside [object].
    A property the collaborator left out is [None]. *)
Module GenObject.
Record t : Type := mk {
  taskType : option string;
  skills : option (list string);
  location : option string;
  duration : option string;
  suggestedPrice : option number;
  description : option string
}.

(** The object has every property the schema requires. *)
Definition conforms (o : t) : bool :=
  bool_decide (is_Some (taskType o)) && bool_decide (is_Some (skills o))
  && bool_decide (is_Some (location o)) && bool_decide (is_Some (duration o))
  && bool_decide (is_Some (suggestedPrice o)) && bool_decide (is_Some (description o)).
End GenObject.

(** Outcome of [await blink.ai.generateObject(...)]: the promise rejects,
    or resolves to a value whose [object] property may be missing. *)
Inductive genOutcome : Type :=
| GenRejects
| GenResolves (object : option GenObject.t).

(** [interface ParsedRequest], with [None] for a property that ended up
    [undefined]. *)
Module ParsedRequest.
Record t : Type := mk {
  taskType : option string;
  skills : option (list string);
  location : option string;
  duration : option string;
  suggestedPrice : option number;
  description : option string
}.
End ParsedRequest.

(** [a || b] where [b] may be undefined. *)
Definition orElse (a b : option string) : option string :=
  if Js.truthy a then a else b.

(** [generateFinalRequest]; [None] is a thrown error (a rejected call, or
    reading a property of an undefined [object]). *)
Definition generateFinalRequest (gen : genOutcome) (data : ScopingData)
    : option ParsedRequest.t :=
  match gen with
  | GenRejects => None
  | GenResolves None => None
  | GenResolves (Some object) =>
      Some (ParsedRequest.mk
              (orElse (taskType data) (GenObject.taskType object))
              (GenObject.skills object)
              (orElse (location data) (GenObject.location object))
              (GenObject.duration object)
              (GenObject.suggestedPrice object)
              (GenObject.description object))
  end.

(** ** Controller *)

(** The record handed to [blink.db.requests.create].  [parsedSkills] is
    the list that the source serialises with [JSON.stringify]. *)
Module RequestRecord.
Record t : Type := mk {
  id : string;
  userId : string;
  inputText : string;
  parsedTaskType : option string;
  parsedSkills : option (list string);
  parsedLocation : option string;
  parsedDuration : option string;
  suggestedPrice : option number;
  finalPrice : option number;
  status : string
}.
End RequestRecord.

(** What the outside world answers during one submit: the outcome of the
    generative-object call, the persistence call ([None]: it rejects,
    [Some r]: it resolves to [r]), the clock reading [Date.now()] in
    decimal, and the signed-in user's id. *)
Record Collaborators : Type := mkCollaborators {
  generateObject : genOutcome;
  create : RequestRecord.t -> option RequestRecord.t;
  now : string;
  userId : string
}.

(** The [useState] cells of the component, followed by a log of the calls
    made to the two collaborators: how many times [generateObject] was
    called, and the records passed to [create]. *)
Record State : Type := mkState {
  inputText : string;
  messages : list Message;
  isProcessing : bool;
  scopingData : ScopingData;
  isComplete : bool;
  parsedRequest : option ParsedRequest.t;
  requestId : option string;
  showWelcome : bool;
  generateCalls : nat;
  createCalls : list RequestRecord.t
}.

Definition initialState : State :=
  mkState "" [] false emptyData false None None true 0 [].

Definition welcomeMessage : Message :=
  mkMessage Ai
    "Hi! I'm your AI assistant. Tell me what you need help with, and I'll find you the perfect local provider. What can I help you with today?".

(** The timer of the welcome effect: [setMessages([welcomeMessage])].
    It fires half a second after the component is mounted, before the
    reply of any turn can arrive. *)
Definition welcome (st : State) : State :=
  mkState (inputText st) [welcomeMessage] (isProcessing st) (scopingData st)
    (isComplete st) (parsedRequest st) (requestId st) (showWelcome st)
    (generateCalls st) (createCalls st).

(** Typing into the text box: [setInputText(e.target.value)]. *)
Definition typeText (value : string) (st : State) : State :=
  mkState value (messages st) (isProcessing st) (scopingData st)
    (isComplete st) (parsedRequest st) (requestId st) (showWelcome st)
    (generateCalls st) (createCalls st).

(** [prev.filter(m => m.content !== 'thinking')] *)
Definition dropThinking (ms : list Message) : list Message :=
  List.filter (λ m, negb (String.eqb (content m) "thinking")) ms.

Definition errorMessage : Message :=
  mkMessage Ai "I'm sorry, I encountered an error. Could you please try again?".

Definition requestRecord (c : Collaborators) (data : ScopingData) (messageText : string)
    (finalRequest : ParsedRequest.t) : RequestRecord.t :=
  RequestRecord.mk
    ("req_" +:+ now c)
    (userId c)
    (Js.strOr (details data) messageText)
    (ParsedRequest.taskType finalRequest)
    (ParsedRequest.skills finalRequest)
    (ParsedRequest.location finalRequest)
    (ParsedRequest.duration finalRequest)
    (ParsedRequest.suggestedPrice finalRequest)
    (ParsedRequest.suggestedPrice finalRequest)
    "processing".

(** [handleSubmit(text)]: one turn, from the click to the end of the
    [finally] block.  [text] is [None] when the handler is called without
    an argument.  The handler works on the [messages] and [scopingData] of
    the render in which it was created, that is, of the state [st] at the
    time of the click, while the [setMessages] updaters work on the latest
    list.  Input is disabled while a turn is outstanding, so a turn is one
    transition. *)
Definition handleSubmit (c : Collaborators) (text : option string) (st : State) : State :=
  let messageText := Js.strOr text (inputText st) in
  if negb (Js.truthyStr (Js.trim messageText)) then st
  else
    let userMessage := mkMessage User messageText in
    let thinkingMessage := mkMessage System "thinking" in
    let aiResponse := processUserInput (messages st) messageText (scopingData st) in
    let aiMessage := mkMessage Ai (Response.message aiResponse) in
    let shown :=
      dropThinking (messages st ++ [userMessage; thinkingMessage]) ++ [aiMessage] in
    let data := Response.updatedData aiResponse in
    let failed := dropThinking shown ++ [errorMessage] in
    if Response.isComplete aiResponse then
      match generateFinalRequest (generateObject c) data with
      | None =>
          mkState "" failed false data true (parsedRequest st) (requestId st) false
            (S (generateCalls st)) (createCalls st)
      | Some finalRequest =>
          let record := requestRecord c data messageText finalRequest in
          match create c record with
          | None =>
              mkState "" failed false data true (Some finalRequest) (requestId st) false
                (S (generateCalls st)) (createCalls st ++ [record])
          | Some newRequest =>
              mkState "" shown false data true (Some finalRequest)
                (Some (RequestRecord.id newRequest)) false
                (S (generateCalls st)) (createCalls st ++ [record])
          end
      end
    else
      mkState "" shown false data (isComplete st) (parsedRequest st) (requestId st) false
        (generateCalls st) (createCalls st).

(** The component renders the provider matches, and with them the
    completed request, only when both cells are filled. *)
Definition showsProviderMatches (st : State) : bool :=
  bool_decide (is_Some (parsedRequest st)) && Js.truthy (requestId st).

(** The text box is rendered only while [isComplete] is false. *)
Definition showsInputArea (st : State) : bool := negb (isComplete st).

(** A conversation: the submits in order, each with what the collaborators
    answer during it. *)
Fixpoint run (turns : list (Collaborators * option string)) (st : State) : State :=
  match turns with
  | [] => st
  | (c, text) :: rest => run rest (handleSubmit c text st)
  end.

(** ** Words of the specification *)

(** A slot is set when it holds a non-empty string: this is the test the
    component applies to its slots ([!data.location] and the like). *)
Definition isSet (v : option string) : Prop := Js.truthy v = true.

(** The task type has a registered follow-up question. *)
Definition hasFollowUp (taskType : option string) : Prop :=
  getTaskSpecificQuestion taskType ≠ None.

(** The completion invariant of the data model: location, budget and
    timeline are set, and the task-specific slot is set or the task type has
    no follow-up question. *)
Definition completionInvariant (d : ScopingData) : Prop :=
  isSet (location d) ∧ isSet (budget d) ∧ isSet (timeline d) ∧
  (isSet (specific d) ∨ ¬ hasFollowUp (taskType d)).

(** The slot a question fills. *)
Definition slot (q : questionType) (d : ScopingData) : option string :=
  match q with
  | QLocation => location d
  | QBudget => budget d
  | QTimeline => timeline d
  | QSpecific => specific d
  end.

(** The fixed priority order of the required fields. *)
Definition priorityOrder : list questionType := [QLocation; QBudget; QTimeline; QSpecific].

(** A required field is unmet: its slot is not set and, for the
    task-specific field, the task type has a follow-up question. *)
Definition unmet (d : ScopingData) (q : questionType) : bool :=
  negb (Js.truthy (slot q d)) &&
  match q with
  | QSpecific => truthyMember (getTaskSpecificQuestion (taskType d))
  | _ => true
  end.

(** The utterance passes the blank check of [handleSubmit]. *)
Definition nonBlank (u : string) : Prop := Js.truthyStr (Js.trim u) = true.

(** The conversation has started: next to the reply of the first turn the
    message list holds at least one more message. *)
Definition started (st : State) : Prop := 2 ≤ length (dropThinking (messages st)).

(** A submit that [handleSubmit] accepts: it carries a non-blank text. *)
Definition accepted (turn : Collaborators * option string) : Prop :=
  ∃ u, turn.2 = Some u ∧ nonBlank u.

(** No slot holds the empty string. *)
Definition noEmptySlot (d : ScopingData) : Prop :=
  taskType d ≠ Some "" ∧ location d ≠ Some "" ∧ budget d ≠ Some "" ∧
  timeline d ≠ Some "" ∧ details d ≠ Some "" ∧ specific d ≠ Some "".

(** What a later turn writes into the slot being asked: the raw
    utterance, except for the budget, where a recognised amount is kept
    instead. *)
Definition answerFor (q : questionType) (userInput : string) : string :=
  match q with
  | QBudget => Js.strOr (extractBudget userInput) userInput
  | _ => userInput
  end.

(** ** States the controller can reach *)

Inductive reachable : State → Prop :=
| reach_initial : reachable initialState
| reach_welcome st : reachable st → reachable (welcome st)
| reach_type value st : reachable st → reachable (typeText value st)
| reach_submit c text st : reachable st → reachable (handleSubmit c text st).

(** ** Keyword rules *)






(** ** Amounts *)

(** The digits at the front of a text, and what follows them. *)
Fixpoint takeDigits (s : string) : string :=
  match s with
  | String c s' => if Js.isDigit c then String c (takeDigits s') else ""
  | EmptyString => ""
  end.

Fixpoint skipDigits (s : string) : string :=
  match s with
  | String c s' => if Js.isDigit c then skipDigits s' else s
  | EmptyString => ""
  end.

Fixpoint allDigits (s : string) : bool :=
  match s with
  | String c s' => Js.isDigit c && allDigits s'
  | EmptyString => true
  end.

(** An integer of the pattern: one digit or more. *)
Definition isNumber (n : string) : Prop := n ≠ "" ∧ allDigits n = true.

Definition startsDigit (s : string) : bool :=
  match s with
  | String c _ => Js.isDigit c
  | EmptyString => false
  end.

(** The text goes on with a range: a dash, perhaps a dollar sign, and a
    digit. *)
Definition startsRange (s : string) : bool :=
  match s with
  | String c rest =>
      Ascii.eqb c "-"
      && (startsDigit rest
          || match rest with
             | String c2 rest2 => Ascii.eqb c2 "$" && startsDigit rest2
             | EmptyString => false
             end)
  | EmptyString => false
  end.

(** A range without its dash and its optional dollar sign. *)
Definition afterSeparator (s : string) : string :=
  match s with
  | String _ (String c2 rest2) => if Ascii.eqb c2 "$" then rest2 else String c2 rest2
  | String _ EmptyString => ""
  | EmptyString => ""
  end.

(** A dollar sign directly followed by a digit occurs in the text. *)
Fixpoint hasAmount (s : string) : bool :=
  match s with
  | String c s' => (Ascii.eqb c "$" && startsDigit s') || hasAmount s'
  | EmptyString => false
  end.

(** [amountAt b post]: [b] is the whole amount standing in front of
    [post]: a dollar sign and an integer, or these followed by a dash, an
    optional dollar sign and a second integer; and it cannot be extended
    into [post]. *)
Inductive amountAt : string → string → Prop :=
| amount_single (n post : string) :
    isNumber n → startsDigit post = false → startsRange post = false →
    amountAt ("$" +:+ n) post
| amount_range (n sep m post : string) :
    isNumber n → isNumber m → sep = "-" ∨ sep = "-$" → startsDigit post = false →
    amountAt ("$" +:+ n +:+ sep +:+ m) post.

(** The remainder after the budget pattern matched at the front of [s],
    read off the pattern directly. *)
Definition afterAmount (s : string) : option string :=
  match s with
  | String c s1 =>
      if Ascii.eqb c "$" && startsDigit s1 then
        let r0 := skipDigits s1 in
        Some (if startsRange r0 then skipDigits (afterSeparator r0) else r0)
      else None
  | EmptyString => None
  end.

(** The optional range group of the pattern, at the text [r0]. *)
Definition rangeGroup : Regex.re :=
  Regex.Seq (Regex.One (Regex.Chr "-"))
    (Regex.Seq (Regex.Opt (Regex.One (Regex.Chr "$"))) (Regex.Many1 Regex.Digit)).

(** The pattern in the words of the specification: a dollar sign and an
    integer, optionally followed by a dash, a dollar sign and an integer. *)
Definition budgetPatternAsStated : Regex.re :=
  Regex.Seq (Regex.One (Regex.Chr "$"))
    (Regex.Seq (Regex.Many1 Regex.Digit)
       (Regex.Opt (Regex.Seq (Regex.One (Regex.Chr "-"))
          (Regex.Seq (Regex.One (Regex.Chr "$")) (Regex.Many1 Regex.Digit))))).

(** The first match of the stated pattern. *)
Definition extractBudgetAsStated (text : string) : option string :=
  Regex.search "" budgetPatternAsStated text.

(** ** A failed finalization *)

(** The state after a completing turn whose finalization throws. *)
Definition afterFailure (c : Collaborators) (u : string) (st : State) : State :=
  let r := processUserInput (messages st) u (scopingData st) in
  mkState ""
    (dropThinking
       (dropThinking (messages st ++ [mkMessage User u; mkMessage System "thinking"])
        ++ [mkMessage Ai (Response.message r)])
     ++ [errorMessage])
    false (Response.updatedData r) true (parsedRequest st) (requestId st) false
    (S (generateCalls st)) (createCalls st).

(** ** Sample conversations *)

(** Collaborators that fail at every call. *)
Definition noCollaborators : Collaborators :=
  mkCollaborators GenRejects (λ _, None) "0" "user".

(** A cleaning request that says "deep", then the three answers. *)
Definition deepCleaning : list (Collaborators * option string) :=
  [ (noCollaborators, Some "Need deep cleaning");
    (noCollaborators, Some "Brooklyn, NY");
    (noCollaborators, Some "$50-100");
    (noCollaborators, Some "Today") ].

(** The collaborator answers with an object that lacks [suggestedPrice]. *)
Definition malformedObject : GenObject.t :=
  GenObject.mk (Some "Photography") (Some ["camera"]) (Some "Manhattan, NY")
    (Some "2 hours") None (Some "Portrait session").

Definition malformedCollaborators : Collaborators :=
  mkCollaborators (GenResolves (Some malformedObject)) Some "1700000000000" "user_1".

Definition photographer : list (Collaborators * option string) :=
  [ (malformedCollaborators, Some "Looking for a photographer");
    (malformedCollaborators, Some "Manhattan, NY");
    (malformedCollaborators, Some "$100-200");
    (malformedCollaborators, Some "this weekend");
    (malformedCollaborators, Some "Portrait session") ].

Definition sampleObject : GenObject.t :=
  GenObject.mk (Some "Photography") (Some ["portrait photography"; "lighting"])
    (Some "Manhattan, NY") (Some "2 hours") (Some 150%Z) (Some "Portrait session").

Definition sampleCollaborators : Collaborators :=
  mkCollaborators (GenResolves (Some sampleObject)) Some "1700000000000" "user_1".

Definition rejectingCollaborators : Collaborators :=
  mkCollaborators GenRejects Some "1700000000000" "user_1".

(** The state after the first turn "Looking for a photographer". *)
Definition afterFirstTurn : State :=
  handleSubmit sampleCollaborators (Some "Looking for a photographer")
    (welcome initialState).

Definition fourAnswers : list (Collaborators * option string) :=
  [ (sampleCollaborators, Some "Manhattan, NY");
    (sampleCollaborators, Some "$100-200");
    (sampleCollaborators, Some "this weekend");
    (sampleCollaborators, Some "Portrait session") ].

Definition threeAnswers : list (Collaborators * option string) :=
  [ (sampleCollaborators, Some "Brooklyn, NY");
    (sampleCollaborators, Some "$50-100");
    (sampleCollaborators, Some "Today") ].

(** The photographer conversation just before its last answer. *)
Definition beforeLastAnswer : State :=
  run (List.firstn 3 fourAnswers) afterFirstTurn.

(** ** Quick replies *)

(** The [quickStarters] array: text and icon. *)
Definition quickStarters : list (string * string) :=
  [ ("I need help with trash removal", "🗑️");
    ("Looking for a photographer", "📸");
    ("Need apartment cleaning", "🧹");
    ("WiFi setup help", "📶");
    ("Moving assistance", "📦");
    ("Graphic design work", "🎨") ].

(** [suggestions: quickStarters.map(s => s.text)] of the welcome message. *)
Definition welcomeSuggestions : list string := map fst quickStarters.

(** What reading a list of quick replies from an object literal can give:
    an array stored in the literal, or a member inherited from
    [Object.prototype]. *)
Inductive chips : Type :=
| Chips (options : list string)
| InheritedChips (name : string).

(** The [suggestions] literal of [getTaskSpecificSuggestions]. *)
Definition taskSuggestions : gmap string (list string) :=
  list_to_map
    [ ("Trash Removal",
        ["Household trash"; "Old furniture"; "Yard waste"; "Construction debris"]);
      ("Photography",
        ["Portrait session"; "Event photography"; "Product photos"; "Headshots"]);
      ("Cleaning",
        ["Deep cleaning"; "Regular maintenance"; "Move-out cleaning"; "Post-party cleanup"]);
      ("Tech Support",
        ["WiFi setup"; "Computer repair"; "Smart home setup"; "Software help"]);
      ("Moving Services",
        ["Studio apartment"; "2-bedroom house"; "Just a few items"; "Full house"]);
      ("Graphic Design",
        ["Logo design"; "Business cards"; "Website graphics"; "Social media posts"]) ].

(** [suggestions[taskType || ''] || []]; an array is truthy even when it
    is empty, and so is an inherited member. *)
Definition getTaskSpecificSuggestions (taskType : option string) : chips :=
  let key := Js.strOr taskType "" in
  match taskSuggestions !! key with
  | Some options => Chips options
  | None =>
      if bool_decide (key ∈ objectPrototypeKeys) then InheritedChips key else Chips []
  end.

(** [suggestions[questionType] || []] *)
Definition getQuestionSuggestions (questionType : questionType) (taskType : option string)
    : chips :=
  match questionType with
  | QLocation => Chips ["Brooklyn, NY"; "Downtown Seattle"; "Austin, TX"; "My home address"]
  | QBudget => Chips ["$50-100"; "Around $75"; "Under $200"; "Flexible budget"]
  | QTimeline => Chips ["Today"; "This weekend"; "Next week"; "Flexible timing"]
  | QSpecific => getTaskSpecificSuggestions taskType
  end.

(** The [suggestions] property of the object [processUserInput] returns:
    the quick replies of the question it asks, none when it asks nothing.
    (The text handed to [getMissingInfo] plays no part in its result.) *)
Definition suggestionsOf (r : Response.t) : chips :=
  match getMissingInfo (Response.updatedData r) "" with
  | top :: _ => getQuestionSuggestions top (taskType (Response.updatedData r))
  | [] => Chips []
  end.

(** The strings listed as quick-reply buttons under a message. *)
Definition offered (c : chips) : list string :=
  match c with
  | Chips options => options
  | InheritedChips _ => []
  end.

(** ** Input handlers *)



(** [handleSuggestionClick] *)
Definition handleSuggestionClick (c : Collaborators) (suggestion : string) (st : State)
    : State :=
  handleSubmit c (Some suggestion) st.

(** ** Shapes of texts *)


(** A capital letter directly followed by a small letter occurs in the
    text. *)
Fixpoint hasCapitalized (s : string) : bool :=
  match s with
  | String c s' =>
      (Js.isUpper c && match s' with String d _ => Js.isLower d | EmptyString => false end)
      || hasCapitalized s'
  | EmptyString => false
  end.

(** Every character of the text satisfies [p]. *)
Fixpoint allChars (p : ascii → bool) (s : string) : bool :=
  match s with
  | String c s' => p c && allChars p s'
  | EmptyString => true
  end.

(** The characters a pattern can take. *)
Fixpoint accepts (r : Regex.re) : ascii → bool :=
  match r with
  | Regex.One a | Regex.Many a | Regex.Many1 a => Regex.test a
  | Regex.Opt r' => accepts r'
  | Regex.Seq r1 r2 => λ c, accepts r1 c || accepts r2 c
  end.

(** A character a location pattern can take: a letter, a space or a
    comma. *)
Definition placeChar (c : ascii) : bool :=
  Js.isUpper c || Js.isLower c || Ascii.eqb c " " || Ascii.eqb c ",".

(** A capitalized word with a tail of letters, spaces and commas. *)
Definition placeShaped (l : string) : Prop :=
  ∃ c d tail,
    l = String c (String d tail)
    ∧ Js.isUpper c = true ∧ Js.isLower d = true ∧ allChars placeChar tail = true.

(** A conversation begun after the welcome message: what the controller
    holds after a first accepted utterance and any later submits. *)
Definition conversation (c0 : Collaborators) (first : string)
    (turns : list (Collaborators * option string)) : State :=
  run turns (handleSubmit c0 (Some first) (welcome initialState)).

(** The lines of [generateSummary], one per set slot. *)
Definition summaryLabels : list (string * (ScopingData → option string)) :=
  [ ("🔧 Service: ", taskType);
    ("📍 Location: ", location);
    ("💰 Budget: ", budget);
    ("⏰ Timeline: ", timeline);
    ("📝 Details: ", specific) ].

(** Collaborators whose persistence call rejects. *)
Definition unsavedCollaborators : Collaborators :=
  mkCollaborators (GenResolves (Some sampleObject)) (λ _, None) "1700000000000" "user_1".

(** A submit sequence from the welcome message on. *)
Definition session (turns : list (Collaborators * option string)) : State :=
  run turns (welcome initialState).

(** The request built at the end of the photographer conversation, and
    the record made from it. *)
Definition sampleRequest : ParsedRequest.t :=
  ParsedRequest.mk (Some "Photography") (Some ["portrait photography"; "lighting"])
    (Some "Manhattan, NY") (Some "2 hours") (Some 150%Z) (Some "Portrait session").

Definition sampleRecord : RequestRecord.t :=
  RequestRecord.mk "req_1700000000000" "user_1" "Looking for a photographer"
    (Some "Photography") (Some ["portrait photography"; "lighting"])
    (Some "Manhattan, NY") (Some "2 hours") (Some 150%Z) (Some 150%Z) "processing".

(** An opening message that says everything. *)
Definition fullOpening : string := "Fix my sink in Austin, TX today for $50".

Ltac all_accepted :=
  repeat (apply Forall_cons; split;
          [eexists; split; [reflexivity | vm_compute; reflexivity] |]);
  apply Forall_nil_2.

(** * Proofs *)

(** ** Worked examples *)

Example extractLocation_brooklyn :
  extractLocation "I need help with trash removal in Brooklyn, NY" = Some "Brooklyn, NY".
Proof. reflexivity. Qed.

Example extractLocation_at :
  extractLocation "Cleaning at Main Street today" = Some "Main Street".
Proof. reflexivity. Qed.

Example extractLocation_none :
  extractLocation "Looking for a photographer" = None.
Proof. reflexivity. Qed.

Example extractBudget_range : extractBudget "about $50-100 or $70" = Some "$50-100".
Proof. reflexivity. Qed.

Example extractBudget_range2 : extractBudget "about $50-$100x" = Some "$50-$100".
Proof. reflexivity. Qed.

Example extractBudget_dash : extractBudget "$ 5 then $75- $3" = Some "$75".
Proof. reflexivity. Qed.

Example extractTimeline_weekend : extractTimeline "On the WEEKEND please" = Some "This weekend".
Proof. reflexivity. Qed.

(** "this weekend" contains "this week", and that rule comes first. *)
Example extractTimeline_this_weekend : extractTimeline "this weekend" = Some "This week".
Proof. reflexivity. Qed.

Example extractTaskType_photo : extractTaskType "Looking for a photographer" = "Photography".
Proof. reflexivity. Qed.

(** Rule order decides between categories: "trash" comes before "clean",
    and "wifi" before "fix". *)
Example extractTaskType_precedence :
  extractTaskType "Clean up the TRASH" = "Trash Removal"
  ∧ extractTaskType "Fix my WiFi" = "Tech Support"
  ∧ extractTaskType "Paint the fence" = "General Service".
Proof. by vm_compute. Qed.

(** The trash-removal scenario: the first turn finds the task type and
    the location, and asks for the budget. *)
Example scenario_trash_removal :
  let r := processUserInput [welcomeMessage]
             "I need help with trash removal in Brooklyn, NY" emptyData in
  taskType (Response.updatedData r) = Some "Trash Removal"
  ∧ location (Response.updatedData r) = Some "Brooklyn, NY"
  ∧ getMissingInfo (Response.updatedData r) "" = [QBudget; QTimeline; QSpecific]
  ∧ Response.message r
    = "Perfect! I understand you need trash removal. What's your budget for this?".
Proof. by vm_compute. Qed.

(** The photographer scenario: five turns, the questions in the fixed
    order, then completion and one finalization call. *)
Example scenario_photographer :
  let st := run fourAnswers afterFirstTurn in
  (content <$> messages afterFirstTurn) !! 2
  = Some "Perfect! I understand you need photography. Where are you located?"
  ∧ (content <$> messages st) !! 4 = Some "Got it! What's your budget for this?"
  ∧ (content <$> messages st) !! 6 = Some "Got it! When do you need this done?"
  ∧ (content <$> messages st) !! 8 = Some "Got it! What type of photography session?"
  ∧ slot QLocation (scopingData st) = Some "Manhattan, NY"
  ∧ slot QBudget (scopingData st) = Some "$100-200"
  ∧ slot QTimeline (scopingData st) = Some "this weekend"
  ∧ slot QSpecific (scopingData st) = Some "Portrait session"
  ∧ isComplete st = true
  ∧ generateCalls st = 1
  ∧ showsProviderMatches st = true.
Proof. by vm_compute. Qed.

(** ** Basic facts *)

Section Basics.

Lemma truthy_Some (s : string) : s ≠ "" → Js.truthy (Some s) = true.
Proof. by destruct s. Qed.

Lemma truthy_is_Some (v : option string) :
  v ≠ Some "" → (isSet v ↔ is_Some v).
Proof.
  unfold isSet. intros H. destruct v as [[|c s]|]; simpl.
  - by destruct H.
  - split; [by eexists | done].
  - split; [done | by intros [? ?]].
Qed.

Lemma nonBlank_nonempty (u : string) : nonBlank u → u ≠ "".
Proof. intros H ->. discriminate H. Qed.

Lemma strOr_truthy (a : option string) (b : string) :
  b ≠ "" → Js.truthyStr (Js.strOr a b) = true.
Proof.
  intros Hb. unfold Js.strOr. destruct a as [s|].
  - destruct (Js.truthyStr s) eqn:E; [done | by destruct b].
  - by destruct b.
Qed.

Lemma strOr_Some (u b : string) : u ≠ "" → Js.strOr (Some u) b = u.
Proof. by destruct u. Qed.

(** A falsy task type has no follow-up question. *)
Lemma getTaskSpecificQuestion_falsy (t : option string) :
  Js.truthy t = false → getTaskSpecificQuestion t = None.
Proof.
  destruct t as [[|c s]|]; simpl; intros H; try done; by vm_compute.
Qed.

Lemma truthyMember_question (t : option string) :
  truthyMember (getTaskSpecificQuestion t) = true ↔ hasFollowUp t.
Proof.
  unfold hasFollowUp, getTaskSpecificQuestion.
  destruct (truthyMember (readProperty _ _)) eqn:E; simpl.
  - rewrite E. split; [|done]. intros _ H. by rewrite H in E.
  - split; [done|]. intros H. by destruct H.
Qed.

(** The policy goes through the priority order and keeps what is unmet. *)
Lemma getMissingInfo_unmet (d : ScopingData) (originalText : string) :
  getMissingInfo d originalText = List.filter (unmet d) priorityOrder.
Proof.
  unfold getMissingInfo, unmet, priorityOrder. simpl.
  destruct (Js.truthy (location d)), (Js.truthy (budget d)),
    (Js.truthy (timeline d)), (Js.truthy (specific d)); simpl;
    try (destruct (Js.truthy (taskType d)); simpl; reflexivity);
    destruct (Js.truthy (taskType d)) eqn:Et; simpl;
    try (rewrite (getTaskSpecificQuestion_falsy _ Et); simpl; reflexivity);
    destruct (truthyMember _); reflexivity.
Qed.

Lemma getMissingInfo_text (d : ScopingData) (text1 text2 : string) :
  getMissingInfo d text1 = getMissingInfo d text2.
Proof. by rewrite !getMissingInfo_unmet. Qed.

Lemma append_assoc (a b c : string) : (a +:+ b) +:+ c = a +:+ b +:+ c.
Proof.
  induction a as [|x a IH]; [reflexivity|].
  change (String x ((a +:+ b) +:+ c) = String x (a +:+ b +:+ c)). by f_equal.
Qed.

End Basics.

(** ** One turn *)

Section Turn.

Implicit Types (d : ScopingData) (q : questionType) (u t : string).

Lemma reply_updatedData d (missing : list questionType) ask fin :
  Response.updatedData (reply d missing ask fin) = d.
Proof. by destruct missing. Qed.

Lemma reply_isComplete d (missing : list questionType) ask fin :
  Response.isComplete (reply d missing ask fin) = true ↔ missing = [].
Proof. by destruct missing. Qed.

Lemma later_turn_data (messages : list Message) u d :
  1 < length messages →
  Response.updatedData (processUserInput messages u d)
  = store (head (getMissingInfo d (Js.strOr (details d) ""))) u d.
Proof.
  intros Hlen. unfold processUserInput.
  destruct (length messages <=? 1) eqn:E.
  - apply Nat.leb_le in E. lia.
  - apply reply_updatedData.
Qed.

Lemma first_turn_data (messages : list Message) u d :
  length messages ≤ 1 →
  Response.updatedData (processUserInput messages u d)
  = mkScopingData (Some (extractTaskType u))
      (assignIfFound (extractLocation u) (location d))
      (assignIfFound (extractBudget u) (budget d))
      (assignIfFound (extractTimeline u) (timeline d))
      (Some u) (additionalInfo d).
Proof.
  intros Hlen. unfold processUserInput.
  destruct (length messages <=? 1) eqn:E.
  - apply reply_updatedData.
  - apply Nat.leb_gt in E. lia.
Qed.

(** Completion is announced exactly when nothing is missing. *)
Lemma turn_isComplete (messages : list Message) u d :
  let r := processUserInput messages u d in
  Response.isComplete r = true
  ↔ getMissingInfo (Response.updatedData r) "" = [].
Proof.
  unfold processUserInput.
  destruct (length messages <=? 1); rewrite reply_updatedData, reply_isComplete;
    by rewrite !getMissingInfo_unmet.
Qed.

Lemma specific_withSpecific d u :
  specific (mkScopingData (taskType d) (location d) (budget d) (timeline d) (details d)
              (withSpecific (additionalInfo d) u)) = Some u.
Proof. unfold specific, withSpecific. simpl. apply lookup_insert_eq. Qed.

Lemma slot_store_same q u d : slot q (store (Some q) u d) = Some (answerFor q u).
Proof. destruct q; try reflexivity. apply specific_withSpecific. Qed.

Lemma slot_store_other q q' u d : q' ≠ q → slot q' (store (Some q) u d) = slot q' d.
Proof. by destruct q, q'. Qed.

Lemma taskType_store (o : option questionType) u d : taskType (store o u d) = taskType d.
Proof. by destruct o as [[]|]. Qed.

Lemma details_store (o : option questionType) u d : details (store o u d) = details d.
Proof. by destruct o as [[]|]. Qed.

Lemma answerFor_truthy q u : u ≠ "" → Js.truthy (Some (answerFor q u)) = true.
Proof.
  intros Hu. destruct q; simpl; try by destruct u.
  by apply strOr_truthy.
Qed.

Lemma unmet_store q q' u d :
  u ≠ "" →
  unmet (store (Some q) u d) q' = if decide (q' = q) then false else unmet d q'.
Proof.
  intros Hu. unfold unmet. rewrite taskType_store. case_decide as E.
  - subst q'. rewrite slot_store_same, answerFor_truthy; done.
  - by rewrite slot_store_other.
Qed.

(** Answering the question at the head of the list removes exactly that
    entry. *)
Lemma store_head_tail q (rest : list questionType) u d t t' :
  u ≠ "" →
  getMissingInfo d t = q :: rest →
  getMissingInfo (store (Some q) u d) t' = rest.
Proof.
  intros Hu. rewrite !getMissingInfo_unmet. unfold priorityOrder.
  cbn [List.filter]. rewrite !unmet_store by done.
  destruct (unmet d QLocation), (unmet d QBudget), (unmet d QTimeline),
    (unmet d QSpecific); intros H; simplify_eq; reflexivity.
Qed.

Lemma getMissingInfo_length d t : length (getMissingInfo d t) ≤ 4.
Proof.
  rewrite getMissingInfo_unmet. unfold priorityOrder. cbn [List.filter].
  destruct (unmet d QLocation), (unmet d QBudget), (unmet d QTimeline),
    (unmet d QSpecific); simpl; lia.
Qed.

End Turn.

(** ** The controller *)

Section Controller.

Implicit Types (st : State) (c : Collaborators) (u : string).

(** No reply of the dialogue is the thinking marker. *)
Lemma reply_not_thinking (messages : list Message) u (d : ScopingData) :
  String.eqb (Response.message (processUserInput messages u d)) "thinking" = false.
Proof.
  unfold processUserInput, reply.
  destruct (length messages <=? 1); destruct (getMissingInfo _ _); reflexivity.
Qed.

Lemma dropThinking_app (xs ys : list Message) :
  dropThinking (xs ++ ys) = dropThinking xs ++ dropThinking ys.
Proof. apply List.filter_app. Qed.

Lemma dropThinking_idemp (xs : list Message) :
  dropThinking (dropThinking xs) = dropThinking xs.
Proof.
  unfold dropThinking. induction xs as [|m xs IH]; [done|]. simpl.
  destruct (negb _) eqn:E; simpl; [rewrite E|]; by rewrite IH.
Qed.

Lemma dropThinking_length (xs : list Message) : length (dropThinking xs) ≤ length xs.
Proof. apply List.filter_length_le. Qed.

(** The message list of an accepted submit, whatever the collaborators
    answer: the earlier messages and the reply are still there. *)
Lemma handleSubmit_messages c u st :
  nonBlank u →
  ∃ mid tail,
    dropThinking (messages (handleSubmit c (Some u) st))
    = dropThinking (messages st) ++ mid
      ++ [mkMessage Ai (Response.message
                          (processUserInput (messages st) u (scopingData st)))]
      ++ tail.
Proof.
  intros Hu. unfold handleSubmit.
  rewrite (strOr_Some u _ (nonBlank_nonempty u Hu)).
  unfold nonBlank in Hu. rewrite Hu. cbn [negb].
  set (r := processUserInput (messages st) u (scopingData st)).
  assert (Hai : dropThinking [mkMessage Ai (Response.message r)]
                = [mkMessage Ai (Response.message r)]).
  { pose proof (reply_not_thinking (messages st) u (scopingData st)) as Hnt.
    fold r in Hnt. unfold dropThinking. cbn [List.filter content].
    by rewrite Hnt. }
  assert (Hshown : ∃ mid,
    dropThinking (dropThinking (messages st
                   ++ [mkMessage User u; mkMessage System "thinking"])
                  ++ [mkMessage Ai (Response.message r)])
    = dropThinking (messages st) ++ mid ++ [mkMessage Ai (Response.message r)]).
  { exists (dropThinking [mkMessage User u]).
    rewrite dropThinking_app, dropThinking_idemp, Hai.
    replace [mkMessage User u; mkMessage System "thinking"]
      with ([mkMessage User u] ++ [mkMessage System "thinking"]) by done.
    rewrite !dropThinking_app.
    change (dropThinking [mkMessage System "thinking"]) with (@nil Message).
    by rewrite app_nil_r, <- app_assoc. }
  destruct Hshown as [mid Hshown].
  destruct (Response.isComplete r).
  - destruct (generateFinalRequest _ _) as [finalRequest|].
    + destruct (create c _); cbn [messages].
      * exists mid, []. by rewrite Hshown, app_nil_r.
      * exists mid, [errorMessage].
        by rewrite dropThinking_app, dropThinking_idemp, Hshown, <- !app_assoc.
    + cbn [messages]. exists mid, [errorMessage].
      by rewrite dropThinking_app, dropThinking_idemp, Hshown, <- !app_assoc.
  - cbn [messages]. exists mid, []. by rewrite Hshown, app_nil_r.
Qed.


Lemma handleSubmit_blank c (text : option string) st :
  Js.truthyStr (Js.trim (Js.strOr text (inputText st))) = false →
  handleSubmit c text st = st.
Proof. intros H. unfold handleSubmit. by rewrite H. Qed.

(** Once the welcome message or any other message is on screen, an
    accepted submit starts the conversation. *)
Lemma handleSubmit_started c u st :
  nonBlank u →
  1 ≤ length (dropThinking (messages st)) →
  started (handleSubmit c (Some u) st).
Proof.
  intros Hu Hlen. unfold started.
  destruct (handleSubmit_messages c u st Hu) as (mid & tail & ->).
  rewrite !length_app. simpl. lia.
Qed.

Lemma started_length st : started st → 1 < length (messages st).
Proof. unfold started. pose proof (dropThinking_length (messages st)). lia. Qed.

(** A started conversation stays started. *)
Lemma started_handleSubmit c (text : option string) st :
  started st → started (handleSubmit c text st).
Proof.
  intros Hst.
  destruct (Js.truthyStr (Js.trim (Js.strOr text (inputText st)))) eqn:E.
  - unfold handleSubmit. rewrite E. cbn [negb].
    set (u := Js.strOr text (inputText st)) in *.
    assert (Hu : nonBlank u) by exact E.
    pose proof (handleSubmit_started c u st Hu) as H.
    unfold handleSubmit in H.
    rewrite (strOr_Some u _ (nonBlank_nonempty u Hu)) in H.
    rewrite E in H. cbn [negb] in H. apply H. unfold started in Hst. lia.
  - by rewrite handleSubmit_blank.
Qed.

Lemma handleSubmit_scopingData c u st :
  nonBlank u →
  scopingData (handleSubmit c (Some u) st)
  = Response.updatedData (processUserInput (messages st) u (scopingData st)).
Proof.
  intros Hu. unfold handleSubmit.
  rewrite (strOr_Some u _ (nonBlank_nonempty u Hu)).
  unfold nonBlank in Hu. rewrite Hu. cbn [negb].
  destruct (Response.isComplete _); [|done].
  destruct (generateFinalRequest _ _); [|done].
  by destruct (create c _).
Qed.

Lemma handleSubmit_isComplete c u st :
  nonBlank u →
  isComplete (handleSubmit c (Some u) st)
  = isComplete st
    || Response.isComplete (processUserInput (messages st) u (scopingData st)).
Proof.
  intros Hu. unfold handleSubmit.
  rewrite (strOr_Some u _ (nonBlank_nonempty u Hu)).
  unfold nonBlank in Hu. rewrite Hu. cbn [negb].
  destruct (Response.isComplete _).
  - rewrite orb_true_r. destruct (generateFinalRequest _ _); [|done].
    by destruct (create c _).
  - by rewrite orb_false_r.
Qed.

End Controller.

(** ** No slot is ever empty *)

Section Reachable.

Implicit Types (st : State) (c : Collaborators) (u : string) (d : ScopingData).

(** Every submit is either ignored or is the submit of a non-blank text. *)
Lemma handleSubmit_cases c (text : option string) st :
  handleSubmit c text st = st
  ∨ ∃ u, nonBlank u ∧ handleSubmit c text st = handleSubmit c (Some u) st.
Proof.
  destruct (Js.truthyStr (Js.trim (Js.strOr text (inputText st)))) eqn:E.
  - right. exists (Js.strOr text (inputText st)). split; [exact E|].
    unfold handleSubmit at 2.
    by rewrite (strOr_Some _ _ (nonBlank_nonempty _ E)).
  - left. by apply handleSubmit_blank.
Qed.

Lemma extractTaskType_nonempty u : extractTaskType u ≠ "".
Proof.
  unfold extractTaskType.
  repeat match goal with |- context [if ?b then _ else _] => destruct b end; done.
Qed.

Lemma assignIfFound_nonempty (x old : option string) :
  old ≠ Some "" → assignIfFound x old ≠ Some "".
Proof.
  unfold assignIfFound. intros Hold.
  destruct (Js.truthy x) eqn:E; [|done]. intros ->. discriminate E.
Qed.

Lemma store_noEmptySlot (o : option questionType) u d :
  u ≠ "" → noEmptySlot d → noEmptySlot (store o u d).
Proof.
  intros Hu (Ht & Hl & Hb & Htl & Hd & Hs).
  destruct o as [q|]; [|done].
  assert (Hq : slot q (store (Some q) u d) ≠ Some "").
  { rewrite slot_store_same. intros [= E].
    pose proof (answerFor_truthy q u Hu) as H. by rewrite E in H. }
  unfold noEmptySlot. rewrite taskType_store, details_store.
  destruct q; simpl in *; done.
Qed.

Lemma turn_noEmptySlot (messages : list Message) u d :
  u ≠ "" → noEmptySlot d →
  noEmptySlot (Response.updatedData (processUserInput messages u d)).
Proof.
  intros Hu Hd. destruct (decide (length messages ≤ 1)) as [Hlen|Hlen].
  - rewrite first_turn_data by done.
    destruct Hd as (Ht & Hl & Hb & Htl & Hdt & Hs). unfold noEmptySlot. simpl.
    repeat split; try (by apply assignIfFound_nonempty); try done.
    + intros [= E]. by apply (extractTaskType_nonempty u).
    + by intros [= E].
  - rewrite later_turn_data by lia. by apply store_noEmptySlot.
Qed.

(** The controller never stores an empty string in a slot. *)
Lemma slots_never_empty st : reachable st → noEmptySlot (scopingData st).
Proof.
  induction 1 as [|st _ IH|value st _ IH|c text st _ IH]; [done|done|done|].
  destruct (handleSubmit_cases c text st) as [->|(u & Hu & ->)]; [done|].
  rewrite handleSubmit_scopingData by done.
  apply turn_noEmptySlot; [by apply nonBlank_nonempty | done].
Qed.

(** On the states the controller reaches, a slot is set exactly when it
    is present. *)
Lemma reachable_isSet st (q : questionType) :
  reachable st →
  (isSet (slot q (scopingData st)) ↔ is_Some (slot q (scopingData st))).
Proof.
  intros Hr. apply truthy_is_Some.
  destruct (slots_never_empty st Hr) as (Ht & Hl & Hb & Htl & Hd & Hs).
  by destruct q.
Qed.

End Reachable.

(** ** The missing-field policy and the completion invariant *)

Lemma policy_empty_iff (d : ScopingData) (originalText : string) :
  getMissingInfo d originalText = [] ↔ completionInvariant d.
Proof.
  rewrite getMissingInfo_unmet. unfold completionInvariant, isSet, priorityOrder.
  rewrite <- truthyMember_question. cbn [List.filter]. unfold unmet. simpl.
  destruct (Js.truthy (location d)), (Js.truthy (budget d)),
    (Js.truthy (timeline d)), (Js.truthy (specific d)),
    (truthyMember (getTaskSpecificQuestion (taskType d))); simpl;
    split; intros H; try done; intuition congruence.
Qed.

(** C1.  For every ScopingData, [getMissingInfo] returns the empty list if
    and only if location, budget and timeline are set and the task-specific
    slot is set or the task type has no follow-up question; and a turn of
    the controller announces completion if and only if the slots it
    returns satisfy that invariant.  Both directions hold.  When no slot
    holds the empty string, as in every state the controller reaches
    ([slots_never_empty]), a slot is set exactly when it is present. *)
Theorem complete_iff_invariant (data : ScopingData) :
  (∀ originalText : string,
      getMissingInfo data originalText = [] ↔ completionInvariant data)
  ∧ (∀ (messages : list Message) (userInput : string),
        Response.isComplete (processUserInput messages userInput data) = true
        ↔ completionInvariant
            (Response.updatedData (processUserInput messages userInput data)))
  ∧ (noEmptySlot data →
     (completionInvariant data
      ↔ is_Some (location data) ∧ is_Some (budget data) ∧ is_Some (timeline data)
        ∧ (is_Some (specific data) ∨ ¬ hasFollowUp (taskType data)))).
Proof.
  split; [|split].
  - intros originalText. apply policy_empty_iff.
  - intros messages userInput.
    pose proof (turn_isComplete messages userInput data) as H. simpl in H.
    rewrite H. apply policy_empty_iff.
  - intros (_ & Hl & Hb & Ht & _ & Hs). unfold completionInvariant.
    by rewrite !truthy_is_Some.
Qed.

(** ** Priority order *)

Lemma sublist_filter_bool {A : Type} (f : A → bool) (l : list A) :
  sublist (List.filter f l) l.
Proof.
  induction l as [|x l IH]; simpl; [constructor|].
  destruct (f x); by constructor.
Qed.

Lemma unmet_spec (d : ScopingData) (q : questionType) :
  unmet d q = true
  ↔ ¬ isSet (slot q d) ∧ (q = QSpecific → hasFollowUp (taskType d)).
Proof.
  unfold unmet, isSet. rewrite andb_true_iff, negb_true_iff.
  rewrite <- truthyMember_question.
  destruct (Js.truthy (slot q d)); destruct q; intuition congruence.
Qed.

Lemma reply_asks (d : ScopingData) (missing : list questionType)
    (ask : string → string) (fin : string) (q : questionType)
    (rest : list questionType) :
  missing = q :: rest →
  Response.isComplete (reply d missing ask fin) = false
  ∧ Response.message (reply d missing ask fin)
    = ask (render (getNextQuestion q (taskType d))).
Proof. by intros ->. Qed.

(** The reply of a turn asks the question of the first field missing from
    the slots it returns. *)
Lemma turn_asks_head (messages : list Message) (u : string) (d : ScopingData)
    (q : questionType) (rest : list questionType) (text : string) :
  let r := processUserInput messages u d in
  getMissingInfo (Response.updatedData r) text = q :: rest →
  Response.isComplete r = false
  ∧ ∃ opening,
      Response.message r
      = opening +:+ render (getNextQuestion q (taskType (Response.updatedData r))).
Proof.
  unfold processUserInput.
  destruct (length messages <=? 1); rewrite reply_updatedData; intros H.
  - edestruct reply_asks as [Hc Hm];
      [etransitivity; [apply getMissingInfo_text | exact H] |].
    rewrite Hc, Hm. split; [done|].
    match goal with
    | |- context [lowerTaskType ?upd] =>
        exists ("Perfect! I understand you need " +:+ lowerTaskType upd +:+ ". ")
    end.
    by rewrite !append_assoc.
  - edestruct reply_asks as [Hc Hm];
      [etransitivity; [apply getMissingInfo_text | exact H] |].
    rewrite Hc, Hm. split; [done|]. by eexists.
Qed.

(** C8.  [getMissingInfo] returns the unmet required fields in the fixed
    order location, budget, timeline, specific: its result is a sublist of
    that order and holds a field exactly when the field's slot is not set
    and, for the task-specific field, the task type has a follow-up
    question.  The controller acts on the head of the list: a later turn
    stores the answer into the slot of the head and leaves the other slots
    alone, and every reply asks the question of the head of the new list. *)
Theorem policy_priority_order (data : ScopingData) (originalText : string) :
  sublist (getMissingInfo data originalText) priorityOrder
  ∧ (∀ q : questionType,
        q ∈ getMissingInfo data originalText
        ↔ ¬ isSet (slot q data) ∧ (q = QSpecific → hasFollowUp (taskType data)))
  ∧ (∀ (messages : list Message) (userInput : string) (q : questionType)
       (rest : list questionType),
        1 < length messages →
        getMissingInfo data originalText = q :: rest →
        let data' := Response.updatedData (processUserInput messages userInput data) in
        slot q data' = Some (answerFor q userInput)
        ∧ ∀ q' : questionType, q' ≠ q → slot q' data' = slot q' data)
  ∧ (∀ (messages : list Message) (userInput : string) (q : questionType)
       (rest : list questionType),
        let r := processUserInput messages userInput data in
        getMissingInfo (Response.updatedData r) originalText = q :: rest →
        Response.isComplete r = false
        ∧ ∃ opening : string,
            Response.message r
            = opening +:+ render (getNextQuestion q (taskType (Response.updatedData r)))).
Proof.
  split; [|split; [|split]].
  - rewrite getMissingInfo_unmet. apply sublist_filter_bool.
  - intros q. rewrite <- unmet_spec, getMissingInfo_unmet, list_elem_of_In, List.filter_In.
    split; [by intros [_ ?] | intros H; split; [|done]].
    unfold priorityOrder. destruct q; simpl; tauto.
  - intros messages userInput q rest Hlen Hhead data'. subst data'.
    rewrite later_turn_data by done.
    rewrite (getMissingInfo_text _ _ originalText), Hhead. split.
    + apply slot_store_same.
    + intros q' Hq'. by apply slot_store_other.
  - intros messages userInput q rest r Hhead. subst r.
    by apply (turn_asks_head messages userInput data q rest originalText).
Qed.

(** C10.  The result of [getMissingInfo] depends on the slots alone: two
    calls with the same ScopingData and different texts return the same
    list.  In particular no text, whether or not it mentions "home" or
    "apartment", satisfies the location slot: while the slot is not set,
    location is the first field missing. *)
Theorem policy_ignores_text (data : ScopingData) :
  (∀ text1 text2 : string, getMissingInfo data text1 = getMissingInfo data text2)
  ∧ (∀ text : string,
        Js.truthy (location data) = false →
        head (getMissingInfo data text) = Some QLocation).
Proof.
  split.
  - intros text1 text2. apply getMissingInfo_text.
  - intros text Hloc. unfold getMissingInfo. rewrite Hloc. simpl.
    destruct (Js.truthy (budget data)), (Js.truthy (timeline data)); simpl;
      destruct (Js.truthy (taskType data) && _); try reflexivity;
      destruct (truthyMember _); reflexivity.
Qed.

(** ** Progress of the dialogue *)

Section Progress.

Implicit Types (st : State) (c : Collaborators) (u : string) (d : ScopingData).

(** A later turn removes the head of the missing list, if there is one. *)
Lemma later_turn_tail (messages : list Message) u d :
  1 < length messages → u ≠ "" →
  getMissingInfo (Response.updatedData (processUserInput messages u d)) ""
  = tail (getMissingInfo d "").
Proof.
  intros Hlen Hu. rewrite later_turn_data by done.
  rewrite (getMissingInfo_text d _ "").
  destruct (getMissingInfo d "") as [|q rest] eqn:E; simpl.
  - exact E.
  - by apply (store_head_tail q rest u d "").
Qed.

Lemma submit_tail c u st :
  started st → nonBlank u →
  getMissingInfo (scopingData (handleSubmit c (Some u) st)) ""
  = tail (getMissingInfo (scopingData st) "").
Proof.
  intros Hst Hu. rewrite handleSubmit_scopingData by done.
  apply later_turn_tail; [by apply started_length | by apply nonBlank_nonempty].
Qed.

Lemma submit_complete c u st :
  started st → nonBlank u →
  length (getMissingInfo (scopingData st) "") ≤ 1 →
  isComplete (handleSubmit c (Some u) st) = true.
Proof.
  intros Hst Hu Hlen. rewrite handleSubmit_isComplete by done.
  apply orb_true_iff. right. apply turn_isComplete.
  rewrite <- (handleSubmit_scopingData c u st) by done.
  rewrite submit_tail by done.
  destruct (getMissingInfo (scopingData st) "") as [|q [|q' rest]]; simpl in *;
    [done | done | lia].
Qed.

Lemma run_missing (turns : list (Collaborators * option string)) st :
  started st → Forall accepted turns →
  length (getMissingInfo (scopingData (run turns st)) "")
  = length (getMissingInfo (scopingData st) "") - length turns.
Proof.
  revert st. induction turns as [|[c text] turns IH]; intros st Hst Hacc;
    cbn [run length].
  - lia.
  - apply Forall_cons in Hacc as [(u & Htext & Hu) Hacc]. simpl in Htext. subst text.
    rewrite IH; [|by apply started_handleSubmit|done].
    rewrite submit_tail by done.
    destruct (getMissingInfo (scopingData st) ""); cbn [length tail]; lia.
Qed.

Lemma run_complete (turns : list (Collaborators * option string)) st :
  started st → Forall accepted turns →
  1 ≤ length turns →
  length (getMissingInfo (scopingData st) "") ≤ length turns →
  isComplete (run turns st) = true.
Proof.
  revert st. induction turns as [|[c text] turns IH]; intros st Hst Hacc H1 Hlen;
    cbn [run length] in *; [lia|].
  apply Forall_cons in Hacc as [(u & Htext & Hu) Hacc]. simpl in Htext. subst text.
  destruct turns as [|turn turns].
  - cbn [run length] in *. apply submit_complete; [done | done | lia].
  - apply IH; [by apply started_handleSubmit | done | cbn [length]; lia |].
    rewrite submit_tail by done.
    destruct (getMissingInfo (scopingData st) ""); cbn [length tail] in *; lia.
Qed.

End Progress.

(** C9.  In a started conversation every accepted (non-blank) turn sets
    the slot of the head missing field to a non-empty value (for the budget
    the amount found in the utterance, else the utterance itself) and leaves
    exactly the tail of the missing list; so after any accepted turns the
    list is shorter by their number, it never has more than four entries,
    and the dialogue is complete after as many turns as there are entries
    (one at least), hence after any four. *)
Theorem dialogue_completes_within_four (st : State)
    (turns : list (Collaborators * option string)) :
  started st →
  Forall accepted turns →
  (∀ (c : Collaborators) (u : string) (q : questionType) (rest : list questionType),
      nonBlank u →
      getMissingInfo (scopingData st) "" = q :: rest →
      slot q (scopingData (handleSubmit c (Some u) st)) = Some (answerFor q u)
      ∧ answerFor q u ≠ ""
      ∧ getMissingInfo (scopingData (handleSubmit c (Some u) st)) "" = rest)
  ∧ length (getMissingInfo (scopingData (run turns st)) "")
    = length (getMissingInfo (scopingData st) "") - length turns
  ∧ length (getMissingInfo (scopingData st) "") ≤ 4
  ∧ (1 ≤ length turns →
     length (getMissingInfo (scopingData st) "") ≤ length turns →
     isComplete (run turns st) = true)
  ∧ (4 ≤ length turns → isComplete (run turns st) = true).
Proof.
  intros Hst Hacc. split; [|split; [|split; [|split]]].
  - intros c u q rest Hu Hhead. split; [|split].
    + rewrite handleSubmit_scopingData by done.
      rewrite later_turn_data by (by apply started_length).
      rewrite (getMissingInfo_text _ _ ""), Hhead. apply slot_store_same.
    + intros E. pose proof (answerFor_truthy q u (nonBlank_nonempty u Hu)) as H.
      by rewrite E in H.
    + rewrite submit_tail by done. by rewrite Hhead.
  - by apply run_missing.
  - apply getMissingInfo_length.
  - intros H1 Hlen. by apply run_complete.
  - intros Hlen. apply run_complete; [done | done | lia |].
    pose proof (getMissingInfo_length (scopingData st) ""). lia.
Qed.

(** ** Immutability of the slots *)

Section Immutability.

Implicit Types (st : State) (c : Collaborators) (u : string) (d : ScopingData)
  (q : questionType).

Lemma head_unmet d (t : string) q :
  head (getMissingInfo d t) = Some q → unmet d q = true.
Proof.
  rewrite getMissingInfo_unmet. intros H.
  assert (Hin : In q (List.filter (unmet d) priorityOrder)).
  { destruct (List.filter (unmet d) priorityOrder); simplify_eq/=. by left. }
  by apply List.filter_In in Hin as [_ ?].
Qed.

(** A later turn changes no slot but the one of the head missing field. *)
Lemma later_turn_changes_head (messages : list Message) u d q :
  1 < length messages →
  slot q (Response.updatedData (processUserInput messages u d)) ≠ slot q d →
  head (getMissingInfo d "") = Some q.
Proof.
  intros Hlen Hne. rewrite later_turn_data in Hne by done.
  rewrite (getMissingInfo_text _ _ "") in Hne.
  destruct (head (getMissingInfo d "")) as [q'|]; [|done].
  destruct (decide (q = q')) as [->|Hq]; [done|].
  by rewrite slot_store_other in Hne.
Qed.

Lemma submit_changes_head c (text : option string) st q :
  started st →
  slot q (scopingData (handleSubmit c text st)) ≠ slot q (scopingData st) →
  head (getMissingInfo (scopingData st) "") = Some q.
Proof.
  intros Hst Hne.
  destruct (handleSubmit_cases c text st) as [E|(u & Hu & E)]; rewrite E in Hne;
    [done|].
  rewrite handleSubmit_scopingData in Hne by done.
  by eapply later_turn_changes_head; [apply started_length|].
Qed.

Lemma submit_keeps_set c (text : option string) st q :
  started st → isSet (slot q (scopingData st)) →
  slot q (scopingData (handleSubmit c text st)) = slot q (scopingData st).
Proof.
  intros Hst Hset.
  destruct (decide (slot q (scopingData (handleSubmit c text st))
                    = slot q (scopingData st))) as [|Hne]; [done|].
  apply (submit_changes_head c text st q Hst), head_unmet, unmet_spec in Hne.
  by destruct Hne.
Qed.

Lemma submit_keeps_taskType c (text : option string) st :
  started st →
  taskType (scopingData (handleSubmit c text st)) = taskType (scopingData st)
  ∧ details (scopingData (handleSubmit c text st)) = details (scopingData st).
Proof.
  intros Hst.
  destruct (handleSubmit_cases c text st) as [->|(u & Hu & ->)]; [done|].
  rewrite handleSubmit_scopingData by done.
  rewrite later_turn_data by (by apply started_length).
  by rewrite taskType_store, details_store.
Qed.

Lemma started_run (turns : list (Collaborators * option string)) st :
  started st → started (run turns st).
Proof.
  revert st. induction turns as [|[c text] turns IH]; intros st Hst; [done|].
  cbn [run]. by apply IH, started_handleSubmit.
Qed.

Lemma run_keeps_set (turns : list (Collaborators * option string)) st q :
  started st → isSet (slot q (scopingData st)) →
  slot q (scopingData (run turns st)) = slot q (scopingData st).
Proof.
  revert st. induction turns as [|[c text] turns IH]; intros st Hst Hset; [done|].
  cbn [run]. rewrite IH.
  - by apply submit_keeps_set.
  - by apply started_handleSubmit.
  - by rewrite submit_keeps_set.
Qed.

Lemma run_keeps_taskType (turns : list (Collaborators * option string)) st :
  started st →
  taskType (scopingData (run turns st)) = taskType (scopingData st)
  ∧ details (scopingData (run turns st)) = details (scopingData st).
Proof.
  revert st. induction turns as [|[c text] turns IH]; intros st Hst; [done|].
  cbn [run]. destruct (IH (handleSubmit c text st)) as [-> ->];
    [by apply started_handleSubmit|].
  by apply submit_keeps_taskType.
Qed.

(** The first turn of a conversation, taken after the welcome message. *)
Lemma first_submit c u :
  nonBlank u →
  let st1 := handleSubmit c (Some u) (welcome initialState) in
  started st1
  ∧ taskType (scopingData st1) = Some (extractTaskType u)
  ∧ details (scopingData st1) = Some u.
Proof.
  intros Hu st1. subst st1. split.
  - apply handleSubmit_started; [done|]. by vm_compute.
  - rewrite handleSubmit_scopingData by done.
    by rewrite first_turn_data by (cbn; lia).
Qed.

End Immutability.

(** C2.  In a conversation begun after the welcome message, the first
    turn sets [taskType] from the first utterance, and no later turn changes
    it (nor the stored first utterance).  A slot that is set is never
    changed by later turns, whatever they say; a turn can change only the
    slot of the field being asked, which is not set at that moment.  What it
    stores there is the raw utterance, except for the budget, where the
    amount found by the budget extractor is stored when there is one. *)
Theorem slots_written_once (c0 : Collaborators) (first : string)
    (turns : list (Collaborators * option string)) :
  nonBlank first →
  let st1 := handleSubmit c0 (Some first) (welcome initialState) in
  let st := run turns st1 in
  taskType (scopingData st1) = Some (extractTaskType first)
  ∧ taskType (scopingData st) = Some (extractTaskType first)
  ∧ details (scopingData st) = Some first
  ∧ (∀ (q : questionType) (more : list (Collaborators * option string)),
        isSet (slot q (scopingData st)) →
        slot q (scopingData (run more st)) = slot q (scopingData st))
  ∧ (∀ (c : Collaborators) (text : option string) (q : questionType),
        slot q (scopingData (handleSubmit c text st)) ≠ slot q (scopingData st) →
        head (getMissingInfo (scopingData st) "") = Some q
        ∧ ¬ isSet (slot q (scopingData st)))
  ∧ (∀ (c : Collaborators) (u : string) (q : questionType) (rest : list questionType),
        nonBlank u →
        getMissingInfo (scopingData st) "" = q :: rest →
        slot q (scopingData (handleSubmit c (Some u) st))
        = Some (if decide (q = QBudget) then Js.strOr (extractBudget u) u else u)).
Proof.
  intros Hfirst st1 st.
  destruct (first_submit c0 first Hfirst) as (Hst1 & Htype & Hdetails).
  fold st1 in Hst1, Htype, Hdetails.
  assert (Hst : started st) by by apply started_run.
  destruct (run_keeps_taskType turns st1 Hst1) as [Ht Hd]. fold st in Ht, Hd.
  split; [done|]. split; [by rewrite Ht|]. split; [by rewrite Hd|].
  split; [|split].
  - intros q more Hset. by apply run_keeps_set.
  - intros c text q Hne.
    pose proof (submit_changes_head c text st q Hst Hne) as Hhead.
    split; [done|]. by apply head_unmet, unmet_spec in Hhead as [? _].
  - intros c u q rest Hu Hhead.
    rewrite handleSubmit_scopingData by done.
    rewrite later_turn_data by (by apply started_length).
    rewrite (getMissingInfo_text _ _ ""), Hhead. cbn [head].
    rewrite slot_store_same. by destruct q.
Qed.

(** ** First match wins *)

Section Rules.

Context {A : Type}.
Implicit Types (rules before after : list (list string * A)) (l : string).



End Rules.



Lemma prefix_spec (kw s : string) :
  String.prefix kw s = true ↔ ∃ post, s = kw +:+ post.
Proof.
  revert s. induction kw as [|a kw IH]; intros s.
  - split; [by exists s | by destruct s].
  - destruct s as [|b s]; simpl.
    + split; [done | by intros [post ?]].
    + destruct (ascii_dec a b) as [->|Hab].
      * rewrite IH. split; intros [post Hpost]; exists post.
        -- change (String b kw +:+ post) with (String b (kw +:+ post)). by rewrite Hpost.
        -- change (String b kw +:+ post) with (String b (kw +:+ post)) in Hpost.
           by injection Hpost.
      * split; [done|]. intros [post Hpost].
        change (String a kw +:+ post) with (String a (kw +:+ post)) in Hpost.
        injection Hpost as Hba _. by destruct Hab.
Qed.

(** [includes] is substring containment. *)
Lemma includes_spec (s kw : string) :
  Js.includes s kw = true ↔ ∃ pre post, s = pre +:+ kw +:+ post.
Proof.
  induction s as [|b s IH]; cbn [Js.includes]; rewrite orb_true_iff, prefix_spec.
  - split.
    + intros [[post Hpost]|?]; [|done]. by exists "", post.
    + intros (pre & post & Hs). left. destruct pre as [|x pre]; [|done].
      by exists post.
  - rewrite IH. split.
    + intros [[post Hpost]|(pre & post & Hs)].
      * by exists "", post.
      * exists (String b pre), post.
        change (String b pre +:+ kw +:+ post) with (String b (pre +:+ kw +:+ post)).
        by rewrite Hs.
    + intros (pre & post & Hs). destruct pre as [|x pre].
      * left. by exists post.
      * right. exists pre, post.
        change (String x pre +:+ kw +:+ post) with (String x (pre +:+ kw +:+ post)) in Hs.
        by injection Hs.
Qed.





(** ** The budget pattern *)

Section BudgetPattern.

Import Regex.

(** Every remainder listed by the matcher is what is left of the text
    after some front part of it. *)
Lemma many_suffix (a : atom) (s rest : string) :
  rest ∈ many a s → ∃ b, s = b +:+ rest.
Proof.
  induction s as [|c s IH]; cbn [many].
  - intros ->%list_elem_of_singleton. by exists "".
  - destruct (test a c).
    + intros [H| ->%list_elem_of_singleton]%elem_of_app; [|by exists ""].
      destruct (IH H) as [b ->]. by exists (String c b).
    + intros ->%list_elem_of_singleton. by exists "".
Qed.

Lemma one_suffix (a : atom) (s rest : string) :
  rest ∈ one a s → ∃ b, s = b +:+ rest.
Proof.
  destruct s as [|c s]; cbn [one]; [by intros ?%elem_of_nil|].
  destruct (test a c); [|by intros ?%elem_of_nil].
  intros ->%list_elem_of_singleton. by exists (String c "").
Qed.

Lemma matches_suffix (r : re) (s rest : string) :
  rest ∈ matches r s → ∃ b, s = b +:+ rest.
Proof.
  revert s rest. induction r as [a|a|a|r IH|r1 IH1 r2 IH2]; intros s rest; cbn [matches].
  - apply one_suffix.
  - apply many_suffix.
  - rewrite list_elem_of_In, in_flat_map. intros (mid & Hmid & Hrest).
    apply list_elem_of_In, one_suffix in Hmid as [b1 ->].
    apply list_elem_of_In, many_suffix in Hrest as [b2 ->].
    exists (b1 +:+ b2). by rewrite append_assoc.
  - intros [H| ->%list_elem_of_singleton]%elem_of_app; [by apply IH | by exists ""].
  - rewrite list_elem_of_In, in_flat_map. intros (mid & Hmid & Hrest).
    apply list_elem_of_In, IH1 in Hmid as [b1 ->].
    apply list_elem_of_In, IH2 in Hrest as [b2 ->].
    exists (b1 +:+ b2). by rewrite append_assoc.
Qed.

Lemma many_head (s : string) : ∃ tl, many Digit s = skipDigits s :: tl.
Proof.
  induction s as [|c s [tl IH]]; simpl; [by eexists|].
  destruct (Js.isDigit c); [|by eexists].
  rewrite IH. by eexists.
Qed.

Lemma many1_head (s : string) :
  if startsDigit s then ∃ tl, flat_map (many Digit) (one Digit s) = skipDigits s :: tl
  else flat_map (many Digit) (one Digit s) = [].
Proof.
  destruct s as [|c s]; cbn [startsDigit one test flat_map skipDigits]; [done|].
  destruct (Js.isDigit c); cbn [flat_map]; [|done].
  destruct (many_head s) as [tl ->]. rewrite app_nil_r. by eexists.
Qed.

Lemma startsDigit_not (c : ascii) (s : string) (d : ascii) :
  Ascii.eqb c d = true → Js.isDigit d = false → startsDigit (String c s) = false.
Proof. intros E%Ascii.eqb_eq Hd. by subst c. Qed.

Lemma rangeGroup_head (r0 : string) :
  head (matches rangeGroup r0)
  = if startsRange r0 then Some (skipDigits (afterSeparator r0)) else None.
Proof.
  unfold rangeGroup. cbn [matches]. destruct r0 as [|c t]; [done|].
  cbn [one test flat_map startsRange afterSeparator].
  destruct (Ascii.eqb c "-"); cbn [flat_map andb app]; [|done].
  rewrite app_nil_r.
  destruct t as [|c2 t1]; [done|].
  cbn [one test flat_map app].
  destruct (Ascii.eqb c2 "$") eqn:E2; cbn [flat_map app andb].
  - rewrite (startsDigit_not c2 t1 "$" E2 eq_refl). cbn [orb].
    pose proof (many1_head (String c2 t1)) as H2.
    rewrite (startsDigit_not c2 t1 "$" E2 eq_refl) in H2. rewrite H2.
    rewrite !app_nil_r.
    pose proof (many1_head t1) as H1. cbn [afterSeparator].
    destruct (startsDigit t1); [by destruct H1 as [tl ->] | by rewrite H1].
  - rewrite orb_false_r, app_nil_r.
    pose proof (many1_head (String c2 t1)) as H2.
    destruct (startsDigit (String c2 t1)); [by destruct H2 as [tl ->] | by rewrite H2].
Qed.

(** The backtracking matcher reports the match read off the pattern. *)
Lemma budgetPattern_head (s : string) :
  head (matches budgetPattern s) = afterAmount s.
Proof.
  unfold budgetPattern. fold rangeGroup. cbn [matches].
  destruct s as [|c s1]; [done|].
  cbn [one test flat_map afterAmount].
  destruct (Ascii.eqb c "$"); cbn [flat_map andb app]; [|done].
  rewrite app_nil_r.
  pose proof (many1_head s1) as H1.
  destruct (startsDigit s1); [|by rewrite H1].
  destruct H1 as [tl ->]. cbn [flat_map].
  pose proof (rangeGroup_head (skipDigits s1)) as Hg.
  destruct (matches rangeGroup (skipDigits s1)) as [|r rs];
    destruct (startsRange (skipDigits s1)); by simplify_eq/=.
Qed.

End BudgetPattern.

Section Amounts.

Implicit Types (s b rest pre post : string) (c : ascii).

Lemma append_cons c s rest : String c s +:+ rest = String c (s +:+ rest).
Proof. reflexivity. Qed.

Lemma append_nil s : "" +:+ s = s.
Proof. reflexivity. Qed.

Lemma take_skip s : s = takeDigits s +:+ skipDigits s.
Proof.
  induction s as [|c s IH]; [done|]. cbn [takeDigits skipDigits].
  destruct (Js.isDigit c); [|done]. rewrite append_cons. by f_equal.
Qed.

Lemma allDigits_take s : allDigits (takeDigits s) = true.
Proof.
  induction s as [|c s IH]; [done|]. cbn [takeDigits].
  destruct (Js.isDigit c) eqn:E; [|done]. cbn [allDigits]. by rewrite E.
Qed.

Lemma isNumber_take s : startsDigit s = true → isNumber (takeDigits s).
Proof.
  intros H. split; [|apply allDigits_take].
  destruct s as [|c s]; [done|]. cbn [startsDigit] in H. cbn [takeDigits].
  by rewrite H.
Qed.

Lemma startsDigit_skip s : startsDigit (skipDigits s) = false.
Proof.
  induction s as [|c s IH]; [done|]. cbn [skipDigits].
  destruct (Js.isDigit c) eqn:E; [done|]. exact E.
Qed.

Lemma length_append s rest :
  String.length (s +:+ rest) = String.length s + String.length rest.
Proof.
  induction s as [|c s IH]; [done|]. rewrite append_cons. simpl. by rewrite IH.
Qed.

Lemma take_append s rest : Js.take (String.length s) (s +:+ rest) = s.
Proof.
  induction s as [|c s IH]; [by destruct rest|].
  rewrite append_cons. simpl. by rewrite IH.
Qed.

Lemma consumed_append b rest : Regex.consumed (b +:+ rest) rest = b.
Proof.
  unfold Regex.consumed. rewrite length_append.
  replace (String.length b + String.length rest - String.length rest)
    with (String.length b) by lia.
  apply take_append.
Qed.

Lemma single_append (n rest : string) :
  ("$" +:+ n) +:+ rest = String "$" (n +:+ rest).
Proof. reflexivity. Qed.

Lemma range_append (n sep m rest : string) :
  ("$" +:+ n +:+ sep +:+ m) +:+ rest = String "$" (n +:+ sep +:+ m +:+ rest).
Proof.
  change (String "$" ((n +:+ sep +:+ m) +:+ rest) = String "$" (n +:+ sep +:+ m +:+ rest)).
  by rewrite !append_assoc.
Qed.

(** The match read off the pattern is a whole amount. *)
Lemma afterAmount_spec s rest :
  afterAmount s = Some rest → ∃ b, s = b +:+ rest ∧ amountAt b rest.
Proof.
  destruct s as [|c s1]; [done|]. cbn [afterAmount].
  destruct (Ascii.eqb c "$") eqn:Ec; [|done]. apply Ascii.eqb_eq in Ec. subst c.
  destruct (startsDigit s1) eqn:Ed; [|done]. cbn [andb]. intros [= <-].
  pose proof (isNumber_take s1 Ed) as Hn.
  pose proof (take_skip s1) as Hs1.
  pose proof (startsDigit_skip s1) as Hr0.
  destruct (startsRange (skipDigits s1)) eqn:Er.
  - destruct (skipDigits s1) as [|c1 t] eqn:E0; [done|].
    cbn [startsRange] in Er. apply andb_true_iff in Er as [Ec1 Er].
    apply Ascii.eqb_eq in Ec1. subst c1.
    destruct t as [|c2 t1].
    { by rewrite orb_false_r in Er. }
    cbn [afterSeparator]. destruct (Ascii.eqb c2 "$") eqn:E2.
    + apply Ascii.eqb_eq in E2. subst c2.
      change (startsDigit (String "$" t1)) with false in Er.
      cbn [orb andb] in Er.
      exists ("$" +:+ takeDigits s1 +:+ "-$" +:+ takeDigits t1). split.
      * rewrite Hs1 at 1. rewrite range_append. do 2 f_equal.
        change (String "-" (String "$" t1)
                = String "-" (String "$" (takeDigits t1 +:+ skipDigits t1))).
        do 2 f_equal. apply take_skip.
      * apply amount_range; [done | by apply isNumber_take | by right |].
        apply startsDigit_skip.
    + cbn [andb] in Er. rewrite orb_false_r in Er.
      exists ("$" +:+ takeDigits s1 +:+ "-" +:+ takeDigits (String c2 t1)). split.
      * rewrite Hs1 at 1. rewrite range_append. do 2 f_equal.
        change (String "-" (String c2 t1)
                = String "-" (takeDigits (String c2 t1) +:+ skipDigits (String c2 t1))).
        f_equal. apply take_skip.
      * apply amount_range; [done | by apply isNumber_take | by left |].
        apply startsDigit_skip.
  - exists ("$" +:+ takeDigits s1). split.
    + rewrite Hs1 at 1. by rewrite single_append.
    + by apply amount_single.
Qed.

Lemma matchAt_budget s :
  Regex.matchAt budgetPattern s
  = (λ rest, Regex.consumed s rest) <$> afterAmount s.
Proof.
  unfold Regex.matchAt. rewrite <- budgetPattern_head.
  by destruct (Regex.matches budgetPattern s).
Qed.

(** Amounts start with a dollar sign and a digit. *)
Lemma afterAmount_None c s :
  afterAmount (String c s) = None ↔ Ascii.eqb c "$" && startsDigit s = false.
Proof. cbn [afterAmount]. by destruct (Ascii.eqb c "$" && startsDigit s). Qed.

(** The leftmost amount of a text. *)
Lemma extractBudget_spec text :
  match extractBudget text with
  | Some b =>
      ∃ pre post, text = pre +:+ b +:+ post ∧ hasAmount pre = false ∧ amountAt b post
  | None => hasAmount text = false
  end.
Proof.
  unfold extractBudget.
  induction text as [|c s IH].
  - reflexivity.
  - cbn [Regex.search Regex.skip]. rewrite matchAt_budget.
    destruct (afterAmount (String c s)) as [rest|] eqn:E; cbn [fmap option_fmap option_map].
    + destruct (afterAmount_spec _ _ E) as (b & Hb & Hamount).
      exists "", rest. rewrite Hb, consumed_append. by rewrite append_nil.
    + apply afterAmount_None in E.
      destruct (Regex.search "" budgetPattern s) as [b|].
      * destruct IH as (pre & post & Hs & Hpre & Hamount).
        exists (String c pre), post. split; [by rewrite append_cons, <- Hs|].
        split; [|done]. cbn [hasAmount]. rewrite Hpre, orb_false_r.
        destruct pre as [|x pre]; [by rewrite andb_false_r|].
        rewrite Hs in E. by rewrite append_cons in E.
      * cbn [hasAmount]. by rewrite E, IH.
Qed.

End Amounts.

Lemma hasAmount_append (pre s : string) :
  hasAmount s = true → hasAmount (pre +:+ s) = true.
Proof.
  intros H. induction pre as [|c pre IH]; [done|].
  rewrite append_cons. cbn [hasAmount]. by rewrite IH, orb_true_r.
Qed.

Lemma amountAt_hasAmount (b post : string) :
  amountAt b post → hasAmount (b +:+ post) = true.
Proof.
  assert (Hn : ∀ n rest, isNumber n → hasAmount (String "$" (n +:+ rest)) = true).
  { intros n rest [Hne Hall]. destruct n as [|d n]; [done|].
    cbn [allDigits] in Hall. apply andb_true_iff in Hall as [Hd _].
    rewrite append_cons. cbn [hasAmount startsDigit]. by rewrite Hd. }
  intros [n post' H _ _ | n sep m post' H _ _ _].
  - rewrite single_append. by apply Hn.
  - rewrite range_append. by apply Hn.
Qed.

(** C7, as stated, fails: in "$50-100" the first match of the stated
    pattern is "$50", since "-100" has no dollar sign; the extractor
    returns "$50-100". *)
Lemma extractBudget_not_as_stated :
  extractBudget "$50-100" = Some "$50-100"
  ∧ extractBudgetAsStated "$50-100" = Some "$50"
  ∧ ¬ (∀ text : string, extractBudget text = extractBudgetAsStated text).
Proof.
  split; [reflexivity|]. split; [reflexivity|].
  intros H. specialize (H "$50-100"). vm_compute in H. discriminate H.
Qed.

(** C7, amended.  For every text the budget extractor returns the leftmost
    amount of the text as it stands there, where an amount is a dollar sign
    and an integer, optionally followed by a dash, an optional dollar sign
    and a second integer, taken as far as it goes; it returns nothing
    exactly when no dollar sign in the text is followed by a digit. *)
Theorem extractBudget_leftmost_amount (text : string) :
  (∀ b : string,
      extractBudget text = Some b →
      ∃ pre post : string,
        text = pre +:+ b +:+ post ∧ hasAmount pre = false ∧ amountAt b post)
  ∧ (extractBudget text = None ↔ hasAmount text = false).
Proof.
  pose proof (extractBudget_spec text) as H. split.
  - intros b Hb. by rewrite Hb in H.
  - destruct (extractBudget text) as [b|]; [|done].
    destruct H as (pre & post & -> & _ & Hamount). split; [done|].
    intros Hno. by rewrite (hasAmount_append pre _ (amountAt_hasAmount b post Hamount)) in Hno.
Qed.

(** ** The task-specific question *)

Section Specific.

Implicit Types (st : State) (c : Collaborators) (u : string) (d : ScopingData).

Lemma run_missing_drop (turns : list (Collaborators * option string)) st :
  started st → Forall accepted turns →
  getMissingInfo (scopingData (run turns st)) ""
  = drop (length turns) (getMissingInfo (scopingData st) "").
Proof.
  revert st. induction turns as [|[c text] turns IH]; intros st Hst Hacc;
    cbn [run length]; [by rewrite drop_0|].
  apply Forall_cons in Hacc as [(u & Htext & Hu) Hacc]. simpl in Htext. subst text.
  rewrite IH; [|by apply started_handleSubmit|done].
  rewrite submit_tail by done.
  destruct (getMissingInfo (scopingData st) "") as [|q rest]; cbn [tail];
    [by rewrite !drop_nil | done].
Qed.

(** The task-specific field, when unmet, is the last entry of the list. *)
Lemma specific_last d (t : string) :
  unmet d QSpecific = true →
  ∃ before, getMissingInfo d t = before ++ [QSpecific].
Proof.
  intros H. rewrite getMissingInfo_unmet. unfold priorityOrder.
  exists (List.filter (unmet d) [QLocation; QBudget; QTimeline]).
  change [QLocation; QBudget; QTimeline; QSpecific]
    with ([QLocation; QBudget; QTimeline] ++ [QSpecific]).
  rewrite List.filter_app. f_equal. cbn [List.filter]. by rewrite H.
Qed.

(** An accepted submit whose reply is a question ends the message list
    with that reply and completes nothing. *)
Lemma submit_question c u st :
  nonBlank u →
  Response.isComplete (processUserInput (messages st) u (scopingData st)) = false →
  last (messages (handleSubmit c (Some u) st))
  = Some (mkMessage Ai (Response.message
                          (processUserInput (messages st) u (scopingData st))))
  ∧ isComplete (handleSubmit c (Some u) st) = isComplete st.
Proof.
  intros Hu Hr. unfold handleSubmit.
  rewrite (strOr_Some u _ (nonBlank_nonempty u Hu)).
  unfold nonBlank in Hu. rewrite Hu, Hr. cbn [negb messages isComplete].
  by rewrite last_snoc.
Qed.

Lemma first_turn_specific (messages : list Message) u d :
  length messages ≤ 1 →
  additionalInfo (Response.updatedData (processUserInput messages u d))
  = additionalInfo d.
Proof. intros Hlen. by rewrite first_turn_data. Qed.

Lemma run_incomplete (turns : list (Collaborators * option string)) st :
  started st → Forall accepted turns →
  isComplete st = false →
  length turns < length (getMissingInfo (scopingData st) "") →
  isComplete (run turns st) = false.
Proof.
  revert st. induction turns as [|[c text] turns IH]; intros st Hst Hacc Hc Hlen;
    cbn [run length] in *; [done|].
  apply Forall_cons in Hacc as [(u & Htext & Hu) Hacc]. simpl in Htext. subst text.
  assert (Htail : length turns
                  < length (getMissingInfo (scopingData (handleSubmit c (Some u) st)) "")).
  { rewrite submit_tail by done.
    destruct (getMissingInfo (scopingData st) ""); cbn [length tail] in *; lia. }
  apply IH; [by apply started_handleSubmit | done | | done].
  rewrite handleSubmit_isComplete, Hc by done. cbn [orb].
  destruct (Response.isComplete _) eqn:E; [|done].
  apply turn_isComplete in E. rewrite <- (handleSubmit_scopingData c u st) in E by done.
  rewrite E in Htail. cbn [length] in Htail. lia.
Qed.

(** The task types with a follow-up question. *)
Lemma hasFollowUp_categories u :
  hasFollowUp (Some (extractTaskType u))
  ↔ extractTaskType u ∈ ["Trash Removal"; "Photography"; "Cleaning"; "Tech Support";
                         "Graphic Design"; "Moving Services"].
Proof.
  rewrite <- truthyMember_question. unfold extractTaskType.
  repeat match goal with |- context [if ?b then _ else _] => destruct b end;
    (split; [intros H; try discriminate H; set_solver | intros H; try reflexivity]);
    repeat (apply elem_of_cons in H as [H|H]; [discriminate H|]);
    by apply elem_of_nil in H.
Qed.

End Specific.

Lemma run_snoc (turns : list (Collaborators * option string))
    (c : Collaborators) (text : option string) (st : State) :
  run (turns ++ [(c, text)]) st = handleSubmit c text (run turns st).
Proof.
  revert st. induction turns as [|[c' text'] turns IH]; intros st; [done|].
  cbn [run app]. apply IH.
Qed.

(** After an accepted submit that leaves a field missing, the last message
    on screen asks the question of the first missing field. *)
Lemma submit_asks (c : Collaborators) (u : string) (st : State)
    (q : questionType) (rest : list questionType) :
  nonBlank u →
  getMissingInfo (scopingData (handleSubmit c (Some u) st)) "" = q :: rest →
  isComplete (handleSubmit c (Some u) st) = isComplete st
  ∧ ∃ opening : string,
      content <$> last (messages (handleSubmit c (Some u) st))
      = Some (opening +:+ render (getNextQuestion q
                (taskType (scopingData (handleSubmit c (Some u) st))))).
Proof.
  intros Hu Hmissing. rewrite handleSubmit_scopingData in * by done.
  destruct (turn_asks_head (messages st) u (scopingData st) q rest "" Hmissing)
    as [Hc [opening Hm]].
  destruct (submit_question c u st Hu Hc) as [Hlast Hcomplete].
  split; [done|]. exists opening. by rewrite Hlast, <- Hm.
Qed.

(** C4, as stated, fails: "Need deep cleaning" is a Cleaning request that
    contains the keyword "deep"; the first turn leaves the task-specific
    slot unset, the field stays in the missing list, and once location,
    budget and timeline are answered the dialogue asks the follow-up
    question. *)
Lemma deep_cleaning_is_asked :
  extractTaskType "Need deep cleaning" = "Cleaning"
  ∧ Js.includes (Js.toLowerCase "Need deep cleaning") "deep" = true
  ∧ specific (scopingData (run (List.firstn 1 deepCleaning) (welcome initialState))) = None
  ∧ getMissingInfo (scopingData (run (List.firstn 1 deepCleaning) (welcome initialState))) ""
    = [QLocation; QBudget; QTimeline; QSpecific]
  ∧ getMissingInfo (scopingData (run deepCleaning (welcome initialState))) "" = [QSpecific]
  ∧ content <$> last (messages (run deepCleaning (welcome initialState)))
    = Some "Got it! What type of cleaning do you need?".
Proof. by vm_compute. Qed.

(** C4, amended.  In a conversation begun after the welcome message, for
    every first utterance whose task type has a follow-up question (Trash
    Removal, Photography, Cleaning, Tech Support, Graphic Design, Moving
    Services) and whatever words it contains, the first turn leaves the
    task-specific slot unset and the field in the missing list; the field
    stays there while earlier fields are being answered, and when it is the
    only one left the last message on screen asks the follow-up question of
    the task type. *)
Theorem follow_up_always_asked (c0 : Collaborators) (u : string)
    (turns : list (Collaborators * option string)) :
  nonBlank u →
  hasFollowUp (Some (extractTaskType u)) →
  Forall accepted turns →
  let st1 := handleSubmit c0 (Some u) (welcome initialState) in
  let st := run turns st1 in
  specific (scopingData st1) = None
  ∧ QSpecific ∈ getMissingInfo (scopingData st1) ""
  ∧ (length turns < length (getMissingInfo (scopingData st1) "") →
     QSpecific ∈ getMissingInfo (scopingData st) "" ∧ isComplete st = false)
  ∧ (S (length turns) = length (getMissingInfo (scopingData st1) "") →
     getMissingInfo (scopingData st) "" = [QSpecific]
     ∧ ∃ opening : string,
         content <$> last (messages st)
         = Some (opening
                 +:+ render (getNextQuestion QSpecific (Some (extractTaskType u))))).
Proof.
  intros Hu Hfollow Hacc st1 st.
  destruct (first_submit c0 u Hu) as (Hst1 & Htype & _). fold st1 in Hst1, Htype.
  assert (Hdata : scopingData st1
                  = Response.updatedData
                      (processUserInput (messages (welcome initialState)) u
                         (scopingData (welcome initialState)))).
  { unfold st1. by rewrite handleSubmit_scopingData. }
  assert (Hspec : specific (scopingData st1) = None).
  { rewrite Hdata. unfold specific. by rewrite first_turn_specific by (cbn; lia). }
  assert (Hunmet : unmet (scopingData st1) QSpecific = true).
  { apply unmet_spec. cbn [slot]. rewrite Hspec, Htype. by split. }
  destruct (specific_last (scopingData st1) "" Hunmet) as [before Hbefore].
  assert (Hdrop : getMissingInfo (scopingData st) ""
                  = drop (length turns) (before ++ [QSpecific])).
  { unfold st. by rewrite run_missing_drop, Hbefore. }
  assert (Hc1 : isComplete st1 = false).
  { unfold st1. rewrite handleSubmit_isComplete by done.
    change (isComplete (welcome initialState)) with false. cbn [orb].
    destruct (Response.isComplete _) eqn:E; [|done].
    apply turn_isComplete in E. rewrite <- Hdata, Hbefore in E.
    by destruct before. }
  rewrite Hbefore, length_app. cbn [length].
  split; [done|]. split; [set_solver|]. split.
  - intros Hlen. split.
    + rewrite Hdrop, drop_app_le by lia. set_solver.
    + apply run_incomplete; [done | done | done |].
      rewrite Hbefore, length_app. cbn [length]. lia.
  - intros Hlen.
    assert (Hlast : getMissingInfo (scopingData st) "" = [QSpecific]).
    { rewrite Hdrop. replace (length turns) with (length before) by lia.
      by rewrite drop_app_length. }
    split; [done|].
    assert (Htype' : taskType (scopingData st) = Some (extractTaskType u)).
    { unfold st. by destruct (run_keeps_taskType turns st1 Hst1) as [-> _]. }
    rewrite <- Htype'. unfold st in *. clear st.
    destruct turns as [|[c text] turns _] using rev_ind.
    + cbn [run] in *. unfold st1 in *.
      by destruct (submit_asks c0 u (welcome initialState) QSpecific [] Hu Hlast).
    + apply Forall_app in Hacc as [_ Hacc].
      apply Forall_cons in Hacc as [(u' & Htext & Hu') _]. simpl in Htext. subst text.
      rewrite run_snoc in *.
      by destruct (submit_asks c u' (run turns st1) QSpecific [] Hu' Hlast).
Qed.

(** ** Finalization *)

Section Finalization.

Implicit Types (st : State) (c : Collaborators) (u : string).

Lemma handleSubmit_failure c u st :
  nonBlank u →
  Response.isComplete (processUserInput (messages st) u (scopingData st)) = true →
  generateFinalRequest (generateObject c)
    (Response.updatedData (processUserInput (messages st) u (scopingData st))) = None →
  handleSubmit c (Some u) st = afterFailure c u st.
Proof.
  intros Hu Hc Hgen. unfold handleSubmit, afterFailure.
  rewrite (strOr_Some u _ (nonBlank_nonempty u Hu)).
  unfold nonBlank in Hu. rewrite Hu, Hc, Hgen. reflexivity.
Qed.

Lemma handleSubmit_success c u st (finalRequest : ParsedRequest.t)
    (newRequest : RequestRecord.t) :
  nonBlank u →
  Response.isComplete (processUserInput (messages st) u (scopingData st)) = true →
  generateFinalRequest (generateObject c)
    (Response.updatedData (processUserInput (messages st) u (scopingData st)))
  = Some finalRequest →
  create c (requestRecord c
              (Response.updatedData (processUserInput (messages st) u (scopingData st)))
              u finalRequest) = Some newRequest →
  parsedRequest (handleSubmit c (Some u) st) = Some finalRequest
  ∧ requestId (handleSubmit c (Some u) st) = Some (RequestRecord.id newRequest)
  ∧ createCalls (handleSubmit c (Some u) st)
    = createCalls st
      ++ [requestRecord c
            (Response.updatedData (processUserInput (messages st) u (scopingData st)))
            u finalRequest]
  ∧ generateCalls (handleSubmit c (Some u) st) = S (generateCalls st).
Proof.
  intros Hu Hc Hgen Hdb. unfold handleSubmit.
  rewrite (strOr_Some u _ (nonBlank_nonempty u Hu)).
  unfold nonBlank in Hu. rewrite Hu, Hc, Hgen, Hdb. done.
Qed.

Lemma afterFailure_started c u st : started (afterFailure c u st).
Proof.
  unfold started, afterFailure. cbn [messages].
  rewrite dropThinking_app, dropThinking_idemp, dropThinking_app, !length_app.
  pose proof (reply_not_thinking (messages st) u (scopingData st)) as Hnt.
  change (dropThinking [errorMessage]) with [errorMessage].
  assert (Hai : ∀ text, String.eqb text "thinking" = false →
                        dropThinking [mkMessage Ai text] = [mkMessage Ai text]).
  { intros text E. unfold dropThinking. cbn [List.filter content]. by rewrite E. }
  rewrite (Hai _ Hnt). cbn [length]. lia.
Qed.

(** A submit in a state where nothing is missing changes no slot and
    announces completion again. *)
Lemma resubmit_complete (messages : list Message) u (d : ScopingData) :
  1 < length messages →
  getMissingInfo d "" = [] →
  Response.updatedData (processUserInput messages u d) = d
  ∧ Response.isComplete (processUserInput messages u d) = true.
Proof.
  intros Hlen Hd.
  assert (Hsame : Response.updatedData (processUserInput messages u d) = d).
  { rewrite later_turn_data by done. by rewrite (getMissingInfo_text _ _ ""), Hd. }
  split; [done|]. apply turn_isComplete. by rewrite Hsame.
Qed.

(** Once [isComplete] is set the text box is not rendered any more,
    whether or not the finalization went through; further submits come from
    the quick replies still on screen. *)
Lemma complete_hides_input_area st :
  isComplete st = true → showsInputArea st = false.
Proof. unfold showsInputArea. by intros ->. Qed.

End Finalization.

(** C5, as stated, fails for data that violates the schema: when the
    collaborator resolves with an object that lacks [suggestedPrice], the
    controller shows no error, builds a request without a price, hands a
    record to the persistence collaborator and shows the provider
    matches. *)
Lemma malformed_object_is_committed :
  GenObject.conforms malformedObject = false
  ∧ isComplete (run photographer (welcome initialState)) = true
  ∧ existsb (λ m, String.eqb (content m) (content errorMessage))
      (messages (run photographer (welcome initialState))) = false
  ∧ ParsedRequest.suggestedPrice
    <$> parsedRequest (run photographer (welcome initialState)) = Some None
  ∧ RequestRecord.suggestedPrice
    <$> createCalls (run photographer (welcome initialState)) = [None]
  ∧ requestId (run photographer (welcome initialState)) = Some "req_1700000000000"
  ∧ showsProviderMatches (run photographer (welcome initialState)) = true.
Proof. by vm_compute. Qed.

(** C5, amended.  If the finalization call throws (the collaborator
    rejects, or resolves without an object), then at the end of the turn
    the last message on screen is the error message, the dialogue is still
    complete, no request has been built, no record has been handed to the
    persistence collaborator, and the collaborator has been called once, not
    again.  The controller accepts a further submit: it changes no slot and
    calls the collaborator once more, and when that call and the
    persistence call succeed the request and its id are stored.  The
    controller itself does not check the returned object against the
    schema. *)
Theorem finalization_failure_is_recoverable (c : Collaborators) (u : string) (st : State) :
  nonBlank u →
  Response.isComplete (processUserInput (messages st) u (scopingData st)) = true →
  generateObject c = GenRejects ∨ generateObject c = GenResolves None →
  let st' := handleSubmit c (Some u) st in
  last (messages st') = Some errorMessage
  ∧ isComplete st' = true
  ∧ isProcessing st' = false
  ∧ parsedRequest st' = parsedRequest st
  ∧ requestId st' = requestId st
  ∧ createCalls st' = createCalls st
  ∧ generateCalls st' = S (generateCalls st)
  ∧ ∀ (c' : Collaborators) (u' : string),
      nonBlank u' →
      let st'' := handleSubmit c' (Some u') st' in
      scopingData st'' = scopingData st'
      ∧ isComplete st'' = true
      ∧ generateCalls st'' = S (generateCalls st')
      ∧ ∀ (finalRequest : ParsedRequest.t) (newRequest : RequestRecord.t),
          generateFinalRequest (generateObject c') (scopingData st') = Some finalRequest →
          create c' (requestRecord c' (scopingData st') u' finalRequest) = Some newRequest →
          parsedRequest st'' = Some finalRequest
          ∧ requestId st'' = Some (RequestRecord.id newRequest)
          ∧ createCalls st''
            = createCalls st' ++ [requestRecord c' (scopingData st') u' finalRequest].
Proof.
  intros Hu Hc Hthrows st'.
  assert (Hgen : generateFinalRequest (generateObject c)
                   (Response.updatedData
                      (processUserInput (messages st) u (scopingData st))) = None).
  { by destruct Hthrows as [-> | ->]. }
  assert (Hst' : st' = afterFailure c u st) by by apply handleSubmit_failure.
  rewrite Hst'. clear Hst' st'.
  split; [by unfold afterFailure; cbn [messages]; rewrite last_snoc|].
  do 6 (split; [reflexivity|]).
  intros c' u' Hu' st''.
  pose proof (afterFailure_started c u st) as Hstarted.
  assert (Hnone : getMissingInfo (scopingData (afterFailure c u st)) "" = []).
  { by apply turn_isComplete in Hc. }
  destruct (resubmit_complete (messages (afterFailure c u st)) u'
              (scopingData (afterFailure c u st))
              (started_length _ Hstarted) Hnone) as [Hsame Hagain].
  assert (Hdata : scopingData st'' = scopingData (afterFailure c u st)).
  { unfold st''. by rewrite handleSubmit_scopingData. }
  split; [done|]. split.
  { unfold st''. rewrite handleSubmit_isComplete by done. by rewrite Hagain, orb_true_r. }
  split.
  { unfold st'', handleSubmit.
    rewrite (strOr_Some u' _ (nonBlank_nonempty u' Hu')).
    unfold nonBlank in Hu'. rewrite Hu', Hagain. cbn [negb].
    clear Hgen. destruct (generateFinalRequest _ _); [|done]. by destruct (create c' _). }
  intros finalRequest newRequest Hfinal Hcreate.
  rewrite <- Hsame in Hfinal, Hcreate.
  destruct (handleSubmit_success c' u' (afterFailure c u st) finalRequest newRequest
              Hu' Hagain Hfinal Hcreate) as (Hp & Hid & Hcalls & _).
  fold st'' in Hp, Hid, Hcalls. rewrite Hsame in Hcalls. done.
Qed.

(** ** The theorems at work on the sample conversations *)

(** The photographer conversation: the task type and the first utterance
    are still there after the four answers. *)
Lemma slots_written_once_witness :
  nonBlank "Looking for a photographer"
  ∧ taskType (scopingData (run fourAnswers afterFirstTurn)) = Some "Photography"
  ∧ details (scopingData (run fourAnswers afterFirstTurn))
    = Some "Looking for a photographer".
Proof.
  assert (H : nonBlank "Looking for a photographer") by (vm_compute; reflexivity).
  split; [exact H|].
  destruct (slots_written_once sampleCollaborators "Looking for a photographer"
              fourAnswers H) as (_ & Htype & Hdetails & _).
  split; [exact Htype | exact Hdetails].
Defined.

(** The photographer conversation is started after its first turn and
    complete after the four answers. *)
Lemma dialogue_completes_within_four_witness :
  started afterFirstTurn
  ∧ Forall accepted fourAnswers
  ∧ isComplete (run fourAnswers afterFirstTurn) = true.
Proof.
  assert (Hst : started afterFirstTurn) by (vm_compute; lia).
  assert (Hacc : Forall accepted fourAnswers) by (unfold fourAnswers; all_accepted).
  split; [exact Hst|]. split; [exact Hacc|].
  destruct (dialogue_completes_within_four afterFirstTurn fourAnswers Hst Hacc)
    as (_ & _ & _ & _ & Hdone).
  apply Hdone. vm_compute. lia.
Defined.

(** After "Need deep cleaning" and three answers the task-specific field
    is the one left. *)
Lemma follow_up_always_asked_witness :
  nonBlank "Need deep cleaning"
  ∧ hasFollowUp (Some (extractTaskType "Need deep cleaning"))
  ∧ Forall accepted threeAnswers
  ∧ getMissingInfo
      (scopingData
         (run threeAnswers
            (handleSubmit sampleCollaborators (Some "Need deep cleaning")
               (welcome initialState)))) ""
    = [QSpecific].
Proof.
  assert (Hu : nonBlank "Need deep cleaning") by (vm_compute; reflexivity).
  assert (Hf : hasFollowUp (Some (extractTaskType "Need deep cleaning")))
    by (vm_compute; discriminate).
  assert (Hacc : Forall accepted threeAnswers) by (unfold threeAnswers; all_accepted).
  split; [exact Hu|]. split; [exact Hf|]. split; [exact Hacc|].
  destruct (follow_up_always_asked sampleCollaborators "Need deep cleaning"
              threeAnswers Hu Hf Hacc) as (_ & _ & _ & Hlast).
  apply Hlast. vm_compute. reflexivity.
Defined.

(** The last answer of the photographer conversation, with a collaborator
    that rejects. *)
Lemma finalization_failure_is_recoverable_witness :
  nonBlank "Portrait session"
  ∧ Response.isComplete
      (processUserInput (messages beforeLastAnswer) "Portrait session"
         (scopingData beforeLastAnswer)) = true
  ∧ last (messages (handleSubmit rejectingCollaborators (Some "Portrait session")
                      beforeLastAnswer)) = Some errorMessage
  ∧ parsedRequest (handleSubmit rejectingCollaborators (Some "Portrait session")
                     beforeLastAnswer) = None
  ∧ createCalls (handleSubmit rejectingCollaborators (Some "Portrait session")
                   beforeLastAnswer) = [].
Proof.
  assert (Hu : nonBlank "Portrait session") by (vm_compute; reflexivity).
  assert (Hc : Response.isComplete
                 (processUserInput (messages beforeLastAnswer) "Portrait session"
                    (scopingData beforeLastAnswer)) = true)
    by (vm_compute; reflexivity).
  split; [exact Hu|]. split; [exact Hc|].
  destruct (finalization_failure_is_recoverable rejectingCollaborators
              "Portrait session" beforeLastAnswer Hu Hc (or_introl eq_refl))
    as (Hlast & _ & _ & Hparsed & _ & Hcreate & _).
  split; [exact Hlast|]. split.
  - rewrite Hparsed. vm_compute. reflexivity.
  - rewrite Hcreate. vm_compute. reflexivity.
Defined.

(** * Further properties of the component *)

(** ** The location extractor *)

Section Location.

Import Regex.

Implicit Types (r : re) (a : atom) (s rest text : string) (c d : ascii).

Lemma allChars_append (p : ascii → bool) (b1 b2 : string) :
  allChars p (b1 +:+ b2) = allChars p b1 && allChars p b2.
Proof.
  induction b1 as [|x b1 IH]; [done|].
  rewrite append_cons. cbn [allChars]. by rewrite IH, andb_assoc.
Qed.

Lemma allChars_weaken (p q : ascii → bool) (b : string) :
  (∀ x, p x = true → q x = true) → allChars p b = true → allChars q b = true.
Proof.
  intros Hpq. induction b as [|x b IH]; [done|]. cbn [allChars].
  rewrite !andb_true_iff. intros [Hx Hb]. split; [by apply Hpq | by apply IH].
Qed.

Lemma many_consumes a s rest :
  rest ∈ many a s → ∃ b, s = b +:+ rest ∧ allChars (test a) b = true.
Proof.
  induction s as [|c s IH]; cbn [many].
  - intros ->%list_elem_of_singleton. by exists "".
  - destruct (test a c) eqn:E.
    + intros [H| ->%list_elem_of_singleton]%elem_of_app; [|by exists ""].
      destruct (IH H) as (b & -> & Hb). exists (String c b). split; [done|].
      cbn [allChars]. by rewrite E, Hb.
    + intros ->%list_elem_of_singleton. by exists "".
Qed.

Lemma one_consumes a s rest :
  rest ∈ one a s → ∃ c, s = String c rest ∧ test a c = true.
Proof.
  destruct s as [|c s]; cbn [one]; [by intros ?%elem_of_nil|].
  destruct (test a c) eqn:E; [|by intros ?%elem_of_nil].
  intros ->%list_elem_of_singleton. by exists c.
Qed.

(** What the matcher consumes is a front part of the text made of
    characters the pattern can take. *)
Lemma matches_consumes r s rest :
  rest ∈ matches r s → ∃ b, s = b +:+ rest ∧ allChars (accepts r) b = true.
Proof.
  revert s rest. induction r as [a|a|a|r IH|r1 IH1 r2 IH2]; intros s rest;
    cbn [matches accepts].
  - intros (c & -> & Hc)%one_consumes. exists (String c ""). split; [done|].
    cbn [allChars]. by rewrite Hc.
  - apply many_consumes.
  - rewrite list_elem_of_In, in_flat_map. intros (mid & Hmid & Hrest).
    apply list_elem_of_In, one_consumes in Hmid as (c & -> & Hc).
    apply list_elem_of_In, many_consumes in Hrest as (b & -> & Hb).
    exists (String c b). split; [done|]. cbn [allChars]. by rewrite Hc, Hb.
  - intros [H| ->%list_elem_of_singleton]%elem_of_app; [by apply IH | by exists ""].
  - rewrite list_elem_of_In, in_flat_map. intros (mid & Hmid & Hrest).
    apply list_elem_of_In, IH1 in Hmid as (b1 & -> & Hb1).
    apply list_elem_of_In, IH2 in Hrest as (b2 & -> & Hb2).
    exists (b1 +:+ b2). split; [by rewrite append_assoc|].
    rewrite allChars_append, andb_true_iff. split.
    + eapply allChars_weaken; [|exact Hb1]. intros x Hx. by rewrite Hx.
    + eapply allChars_weaken; [|exact Hb2]. intros x Hx. by rewrite Hx, orb_true_r.
Qed.

(** A pattern that begins with [[A-Z][a-z]+] consumes a capital letter, a
    small letter and then what the rest of the pattern takes. *)
Lemma capitalized_consumes r s rest :
  rest ∈ matches (Seq (One Upper) (Seq (Many1 Lower) r)) s →
  ∃ c d b,
    s = String c (String d b) +:+ rest
    ∧ Js.isUpper c = true ∧ Js.isLower d = true
    ∧ allChars (λ x, Js.isLower x || accepts r x) b = true.
Proof.
  cbn [matches]. rewrite list_elem_of_In, in_flat_map. intros (s1 & Hs1 & Hrest).
  apply list_elem_of_In, one_consumes in Hs1 as (c & -> & Hc).
  apply in_flat_map in Hrest as (s2 & Hs2 & Hrest).
  apply in_flat_map in Hs2 as (s3 & Hs3 & Hs2).
  apply list_elem_of_In, one_consumes in Hs3 as (d & -> & Hd).
  apply list_elem_of_In, many_consumes in Hs2 as (b1 & -> & Hb1).
  apply list_elem_of_In, matches_consumes in Hrest as (b2 & -> & Hb2).
  exists c, d, (b1 +:+ b2). split; [by rewrite !append_cons, append_assoc|].
  split; [done|]. split; [done|].
  rewrite allChars_append, andb_true_iff. split.
  - eapply allChars_weaken; [|exact Hb1]. intros x Hx. cbn [test] in Hx. by rewrite Hx.
  - eapply allChars_weaken; [|exact Hb2]. intros x Hx. by rewrite Hx, orb_true_r.
Qed.

Lemma skip_spec (pre s s' : string) : skip pre s = Some s' ↔ s = pre +:+ s'.
Proof.
  revert s. induction pre as [|x pre IH]; intros s; cbn [skip].
  - rewrite append_nil. split; [by intros [= ->] | by intros ->].
  - destruct s as [|y s]; [by rewrite append_cons|].
    rewrite append_cons. destruct (Ascii.eqb_spec x y) as [->|Hxy].
    + rewrite IH. split; [by intros -> | by intros [= ->]].
    + split; [done | by intros [= ? _]].
Qed.

(** A successful search found its literal and its group somewhere in the
    text; the result is what the group consumed there. *)
Lemma search_found (pre : string) r text (m : string) :
  search pre r text = Some m →
  ∃ before rest,
    text = before +:+ pre +:+ m +:+ rest ∧ rest ∈ matches r (m +:+ rest).
Proof.
  induction text as [|c text IH]; cbn [search].
  - destruct (skip pre "") as [s'|] eqn:Es; [|done].
    unfold matchAt. destruct (matches r s') as [|rest tl] eqn:Em; [done|].
    intros [= <-]. apply skip_spec in Es.
    assert (Hin : rest ∈ matches r s') by (rewrite Em; by left).
    destruct (matches_consumes r s' rest Hin) as (b & -> & _).
    rewrite consumed_append. exists "", rest. split; [exact Es | exact Hin].
  - destruct (match skip pre (String c text) with
              | Some s' => matchAt r s'
              | None => None
              end) as [m'|] eqn:E.
    + intros [= ->]. destruct (skip pre (String c text)) as [s'|] eqn:Es; [|done].
      unfold matchAt in E. destruct (matches r s') as [|rest tl] eqn:Em; [done|].
      injection E as <-. apply skip_spec in Es.
      assert (Hin : rest ∈ matches r s') by (rewrite Em; by left).
      destruct (matches_consumes r s' rest Hin) as (b & -> & _).
      rewrite consumed_append. exists "", rest. split; [exact Es | exact Hin].
    + intros (before & rest & -> & Hrest)%IH.
      exists (String c before), rest. by rewrite append_cons.
Qed.

(** A search succeeds as soon as the literal and the group match at some
    place of the text. *)
Lemma search_finds (pre : string) r (before s' : string) :
  matches r s' ≠ [] → is_Some (search pre r (before +:+ pre +:+ s')).
Proof.
  intros Hm. induction before as [|c before IH].
  - rewrite append_nil.
    assert (Hskip : skip pre (pre +:+ s') = Some s') by by apply skip_spec.
    destruct (pre +:+ s') as [|x t] eqn:E; cbn [search]; rewrite Hskip;
      unfold matchAt; destruct (matches r s'); try done; by eexists.
  - rewrite append_cons. cbn [search].
    destruct (match skip pre _ with Some _ => _ | None => _ end); [by eexists | done].
Qed.

End Location.

Section LocationShape.

Import Regex.

Implicit Types (s rest text : string) (c d : ascii).

Lemma append_inv_r (a b r : string) : a +:+ r = b +:+ r → a = b.
Proof.
  revert b. induction a as [|x a IH]; intros [|y b] H.
  - done.
  - apply (f_equal String.length) in H. rewrite append_nil, append_cons in H.
    cbn [String.length] in H. rewrite length_append in H. lia.
  - apply (f_equal String.length) in H. rewrite append_nil, append_cons in H.
    cbn [String.length] in H. rewrite length_append in H. lia.
  - rewrite !append_cons in H. injection H as -> H. f_equal. by apply IH.
Qed.

Lemma placeChar_cityState (x : ascii) :
  Js.isLower x
  || accepts (LocationPatterns.cat
                [Opt LocationPatterns.space; Many Upper; Many Lower;
                 Opt LocationPatterns.comma; Opt LocationPatterns.space; One Upper]
                (One Upper)) x = true →
  placeChar x = true.
Proof.
  unfold placeChar. cbn.
  destruct (Js.isUpper x), (Js.isLower x), (Ascii.eqb x " "), (Ascii.eqb x ","); done.
Qed.

Lemma placeChar_placeName (x : ascii) :
  Js.isLower x
  || accepts (LocationPatterns.cat [Opt LocationPatterns.space; Many Upper] (Many Lower)) x
     = true →
  placeChar x = true.
Proof.
  unfold placeChar. cbn.
  destruct (Js.isUpper x), (Js.isLower x), (Ascii.eqb x " "), (Ascii.eqb x ","); done.
Qed.

Lemma search_place (pre : string) (tailPattern : re) text (m : string) :
  (∀ x, Js.isLower x || accepts tailPattern x = true → placeChar x = true) →
  search pre (Seq (One Upper) (Seq (Many1 Lower) tailPattern)) text = Some m →
  placeShaped m ∧ ∃ before after, text = before +:+ m +:+ after.
Proof.
  intros Hchars (before & rest & -> & Hrest)%search_found.
  apply capitalized_consumes in Hrest as (c & d & b & Hm & Hc & Hd & Hb).
  apply append_inv_r in Hm as ->. split.
  - exists c, d, b. repeat split; try done.
    eapply allChars_weaken; [|exact Hb]. exact Hchars.
  - exists (before +:+ pre), rest. by rewrite !append_assoc.
Qed.

(** What [extractLocation] returns stands in the text and is a
    capitalized word with a tail of letters, spaces and commas. *)
Lemma extractLocation_shape text (l : string) :
  extractLocation text = Some l →
  placeShaped l ∧ ∃ before after, text = before +:+ l +:+ after.
Proof.
  unfold extractLocation, LocationPatterns.locationPatterns. cbn [firstPattern].
  destruct (search "in " LocationPatterns.cityState text) as [m1|] eqn:E1.
  { intros [= <-]. revert E1. apply search_place, placeChar_cityState. }
  destruct (search "at " LocationPatterns.placeName text) as [m2|] eqn:E2.
  { intros [= <-]. revert E2. apply search_place, placeChar_placeName. }
  destruct (search "" LocationPatterns.cityState text) as [m3|] eqn:E3; [|done].
  intros [= <-]. revert E3. apply search_place, placeChar_cityState.
Qed.

Lemma hasCapitalized_append (pre s : string) :
  hasCapitalized s = true → hasCapitalized (pre +:+ s) = true.
Proof.
  intros H. induction pre as [|x pre IH]; [done|].
  rewrite append_cons. cbn [hasCapitalized]. by rewrite IH, orb_true_r.
Qed.

Lemma placeShaped_capitalized (l after : string) :
  placeShaped l → hasCapitalized (l +:+ after) = true.
Proof.
  intros (c & d & tail & -> & Hc & Hd & _).
  rewrite !append_cons. cbn [hasCapitalized]. by rewrite Hc, Hd.
Qed.

Lemma extractLocation_capitalized text :
  hasCapitalized text = false → extractLocation text = None.
Proof.
  intros Hno. destruct (extractLocation text) as [l|] eqn:E; [|done].
  apply extractLocation_shape in E as [Hshape (before & after & ->)].
  by rewrite (hasCapitalized_append before _ (placeShaped_capitalized l after Hshape))
    in Hno.
Qed.

(** Lower-cased texts hold no capital letter at all. *)
Lemma lowercase_not_capitalized text :
  Js.toLowerCase text = text → hasCapitalized text = false.
Proof.
  induction text as [|c text IH]; [done|]. cbn [Js.toLowerCase hasCapitalized].
  intros [= Hc Htext]. rewrite (IH Htext), orb_false_r.
  unfold Js.lowerChar in Hc. destruct (Js.isUpper c) eqn:E; [|done].
  apply (f_equal nat_of_ascii) in Hc. rewrite nat_ascii_embedding in Hc; [lia|].
  unfold Js.isUpper in E. apply andb_true_iff in E as [_ E%Nat.leb_le]. lia.
Qed.

Lemma many_nonempty (a : atom) s : many a s ≠ [].
Proof. destruct s as [|c s]; cbn [many]; [done|]. destruct (test a c); [|done].
  by destruct (many a s). Qed.

Lemma flat_map_nonempty {A B : Type} (f : A → list B) (l : list A) :
  l ≠ [] → (∀ x, f x ≠ []) → flat_map f l ≠ [].
Proof.
  destruct l as [|x l]; [done|]. intros _ Hf. cbn [flat_map].
  specialize (Hf x). by destruct (f x).
Qed.

(** After a capital and a small letter the group of the second pattern
    always finds a match. *)
Lemma placeName_matches c d rest :
  Js.isUpper c = true → Js.isLower d = true →
  matches LocationPatterns.placeName (String c (String d rest)) ≠ [].
Proof.
  intros Hc Hd. unfold LocationPatterns.placeName, LocationPatterns.cat.
  cbn [foldr matches one test flat_map]. rewrite Hc. cbn [flat_map].
  change (one Lower (String d rest)) with (if Js.isLower d then [rest] else []).
  rewrite Hd. cbn [flat_map]. rewrite !app_nil_r.
  apply flat_map_nonempty; [apply many_nonempty|]. intros s1.
  apply flat_map_nonempty; [by destruct (matches LocationPatterns.space s1)|].
  intros s2.
  apply flat_map_nonempty; [apply many_nonempty | intros; apply many_nonempty].
Qed.

End LocationShape.

(** X1.  Whatever [extractLocation] returns is a part of the text as it
    stands there: a capital letter, a small letter, and then only letters,
    spaces and commas.  In particular it is never empty. *)
Theorem extractLocation_returns_place (text l : string) :
  extractLocation text = Some l →
  (∃ before after : string, text = before +:+ l +:+ after)
  ∧ (∃ (c d : ascii) (tail : string),
        l = String c (String d tail)
        ∧ Js.isUpper c = true ∧ Js.isLower d = true
        ∧ allChars placeChar tail = true)
  ∧ Js.truthy (Some l) = true.
Proof.
  intros [Hshape Hpart]%extractLocation_shape. split; [done|]. split; [done|].
  by destruct Hshape as (c & d & tail & -> & _).
Qed.

(** X2.  A text in which no capital letter is directly followed by a small
    letter, for instance a text without capitals, yields no location; on a
    first turn with such a text and no location yet, the reply asks where
    the user is located. *)
Theorem extractLocation_needs_capital (text : string) :
  hasCapitalized text = false ∨ Js.toLowerCase text = text →
  extractLocation text = None
  ∧ ∀ (messages : list Message) (data : ScopingData),
      length messages ≤ 1 →
      ¬ isSet (location data) →
      head (getMissingInfo
              (Response.updatedData (processUserInput messages text data)) "")
      = Some QLocation
      ∧ ∃ opening : string,
          Response.message (processUserInput messages text data)
          = opening +:+ "Where are you located?".
Proof.
  intros H.
  assert (Hnone : extractLocation text = None).
  { apply extractLocation_capitalized. destruct H as [H|H]; [done|].
    by apply lowercase_not_capitalized. }
  split; [done|]. intros messages data Hlen Hunset.
  assert (Hhead : head (getMissingInfo
                          (Response.updatedData (processUserInput messages text data)) "")
                  = Some QLocation).
  { rewrite first_turn_data by done. unfold getMissingInfo. cbn [location].
    rewrite Hnone. unfold assignIfFound. cbn [Js.truthy].
    destruct (Js.truthy (location data)) eqn:E; [by destruct Hunset|].
    cbn [negb app].
    repeat match goal with |- context [if ?b then _ else _] => destruct b end; done. }
  split; [done|].
  destruct (getMissingInfo (Response.updatedData (processUserInput messages text data)) "")
    as [|q rest] eqn:E; [done|]. injection Hhead as ->.
  destruct (turn_asks_head messages text data QLocation rest "" E) as [_ [opening Hm]].
  by exists opening.
Qed.

(** X3.  Wherever "at " is followed by a capital and a small letter, the
    extractor finds a location: the heuristic takes any capitalized word
    after "at" for a place. *)
Theorem extractLocation_after_at (before rest : string) (c d : ascii) :
  Js.isUpper c = true → Js.isLower d = true →
  is_Some (extractLocation (before +:+ "at " +:+ String c (String d rest))).
Proof.
  intros Hc Hd. unfold extractLocation, LocationPatterns.locationPatterns.
  cbn [firstPattern].
  destruct (Regex.search "in " _ _); [by eexists|].
  pose proof (search_finds "at " LocationPatterns.placeName before
                (String c (String d rest)) (placeName_matches c d rest Hc Hd)) as [m Hm].
  rewrite Hm. by eexists.
Qed.

(** ** Questions and quick replies *)

Lemma render_truthy (t : option string) (m : member) :
  getTaskSpecificQuestion t = Some m → render m ≠ "".
Proof.
  unfold getTaskSpecificQuestion.
  destruct (truthyMember (readProperty taskQuestions (Js.strOr t ""))) eqn:E; [|done].
  intros Hm. rewrite Hm in E. destruct m as [v|name]; cbn [render].
  - by destruct v.
  - by repeat case_match.
Qed.

(** The two task tables register the same task types. *)
Lemma task_tables_agree (key : string) :
  match taskQuestions !! key with
  | Some q =>
      Js.truthyStr q = true
      ∧ ∃ options, taskSuggestions !! key = Some options ∧ length options = 4
                   ∧ Forall nonBlank options
  | None => taskSuggestions !! key = None
  end.
Proof.
  unfold taskQuestions, taskSuggestions. cbn [list_to_map foldr fst snd uncurry].
  rewrite !lookup_insert, !lookup_empty.
  repeat case_decide; try done; subst; try done;
    (split; [done|]); eexists; (split; [reflexivity|]); (split; [reflexivity|]);
    repeat constructor; by vm_compute.
Qed.

Lemma extracted_type_suggestions (u : string) :
  hasFollowUp (Some (extractTaskType u)) →
  ∃ options,
    getTaskSpecificSuggestions (Some (extractTaskType u)) = Chips options
    ∧ length options = 4 ∧ Forall nonBlank options.
Proof.
  rewrite <- truthyMember_question. unfold extractTaskType.
  repeat match goal with |- context [if ?b then _ else _] => destruct b end;
    intros H; try discriminate H;
    eexists; (split; [reflexivity|]); (split; [reflexivity|]);
    repeat constructor; by vm_compute.
Qed.

(** X4.  The controller never asks an empty question: for every field the
    policy reports missing, the question text is non-empty. *)
Theorem missing_field_has_question (data : ScopingData) (text : string)
    (q : questionType) :
  q ∈ getMissingInfo data text →
  render (getNextQuestion q (taskType data)) ≠ "".
Proof.
  rewrite getMissingInfo_unmet, list_elem_of_In, List.filter_In. intros [_ Hq].
  destruct q; cbn [getNextQuestion render]; try done.
  unfold unmet in Hq. apply andb_true_iff in Hq as [_ Hq].
  destruct (getTaskSpecificQuestion (taskType data)) as [m|] eqn:E; [|done].
  cbn [default]. by apply (render_truthy (taskType data)).
Qed.

(** X5.  The table of follow-up questions and the table of their quick
    replies register the same task types: a task type with a question of
    its own has four quick replies, none of them blank; a task type without
    a question has none; and a name inherited from the object prototype is
    inherited by both. *)
Theorem follow_up_has_quick_replies (taskType : option string) :
  (∀ q : string,
      getTaskSpecificQuestion taskType = Some (Own q) →
      ∃ options : list string,
        getTaskSpecificSuggestions taskType = Chips options
        ∧ length options = 4 ∧ Forall nonBlank options)
  ∧ (getTaskSpecificQuestion taskType = None ↔
     getTaskSpecificSuggestions taskType = Chips [])
  ∧ (∀ name : string,
        getTaskSpecificQuestion taskType = Some (Inherited name) ↔
        getTaskSpecificSuggestions taskType = InheritedChips name).
Proof.
  unfold getTaskSpecificQuestion, getTaskSpecificSuggestions, readProperty.
  pose proof (task_tables_agree (Js.strOr taskType "")) as H.
  destruct (taskQuestions !! Js.strOr taskType "") as [q'|].
  - destruct H as (Hq & options & -> & Hlen & Hall). cbn [truthyMember]. rewrite Hq.
    split; [|split].
    + intros q _. by exists options.
    + split; [done|]. intros [= ->]. done.
    + intros name. split; [done|done].
  - rewrite H. case_bool_decide; cbn [truthyMember].
    + split; [done|]. split; [done|]. intros name. split; by intros [= ->].
    + split; [done|]. split; [done|]. done.
Qed.

Lemma conversation_started (c0 : Collaborators) (first : string)
    (turns : list (Collaborators * option string)) :
  nonBlank first →
  started (conversation c0 first turns)
  ∧ taskType (scopingData (conversation c0 first turns)) = Some (extractTaskType first)
  ∧ details (scopingData (conversation c0 first turns)) = Some first.
Proof.
  intros Hfirst. unfold conversation.
  destruct (first_submit c0 first Hfirst) as (Hst & Htype & Hdetails).
  destruct (run_keeps_taskType turns _ Hst) as [-> ->].
  split; [by apply started_run | done].
Qed.

(** The quick replies shown with the reply of an accepted submit are those
    of the first field missing afterwards. *)
Lemma suggestionsOf_submit (c : Collaborators) (u : string) (st : State) :
  nonBlank u →
  suggestionsOf (processUserInput (messages st) u (scopingData st))
  = match getMissingInfo (scopingData (handleSubmit c (Some u) st)) "" with
    | q :: _ => getQuestionSuggestions q (taskType (scopingData (handleSubmit c (Some u) st)))
    | [] => Chips []
    end.
Proof. intros Hu. unfold suggestionsOf. by rewrite handleSubmit_scopingData. Qed.

(** X6.  In a conversation begun after the welcome message, the question
    being asked comes with exactly four quick replies, and clicking any of
    them is accepted, stores the reply (for the budget, the amount in it) in
    the slot of that question and leaves the rest of the missing list. *)
Theorem quick_reply_answers_question (c0 : Collaborators) (first : string)
    (turns : list (Collaborators * option string))
    (q : questionType) (rest : list questionType) :
  nonBlank first →
  getMissingInfo (scopingData (conversation c0 first turns)) "" = q :: rest →
  ∃ options : list string,
    getQuestionSuggestions q (taskType (scopingData (conversation c0 first turns)))
    = Chips options
    ∧ length options = 4
    ∧ ∀ (c : Collaborators) (s : string),
        s ∈ options →
        nonBlank s
        ∧ slot q (scopingData (handleSuggestionClick c s (conversation c0 first turns)))
          = Some (answerFor q s)
        ∧ getMissingInfo
            (scopingData (handleSuggestionClick c s (conversation c0 first turns))) ""
          = rest.
Proof.
  intros Hfirst Hmissing.
  destruct (conversation_started c0 first turns Hfirst) as (Hst & Htype & _).
  set (st := conversation c0 first turns) in *.
  assert (Hoptions : ∃ options,
             getQuestionSuggestions q (taskType (scopingData st)) = Chips options
             ∧ length options = 4 ∧ Forall nonBlank options).
  { destruct q; cbn [getQuestionSuggestions].
    - eexists. split; [reflexivity|]. split; [reflexivity|].
      repeat constructor; by vm_compute.
    - eexists. split; [reflexivity|]. split; [reflexivity|].
      repeat constructor; by vm_compute.
    - eexists. split; [reflexivity|]. split; [reflexivity|].
      repeat constructor; by vm_compute.
    - rewrite Htype. apply extracted_type_suggestions.
      assert (Hin : QSpecific ∈ getMissingInfo (scopingData st) "")
        by (rewrite Hmissing; by left).
      rewrite getMissingInfo_unmet, list_elem_of_In, List.filter_In in Hin.
      destruct Hin as [_ Hin]. apply unmet_spec in Hin as [_ Hin].
      rewrite <- Htype. by apply Hin. }
  destruct Hoptions as (options & Hq & Hlen & Hall).
  exists options. split; [done|]. split; [done|].
  intros c s Hs. rewrite Forall_forall in Hall. pose proof (Hall s Hs) as Hblank.
  split; [done|]. unfold handleSuggestionClick. split.
  - rewrite handleSubmit_scopingData by done.
    rewrite later_turn_data by (by apply started_length).
    rewrite (getMissingInfo_text _ _ ""), Hmissing. apply slot_store_same.
  - rewrite submit_tail by done. by rewrite Hmissing.
Qed.

(** ** The summary *)

Lemma append_empty (s : string) : s +:+ "" = s.
Proof. induction s as [|c s IH]; [done|]. rewrite append_cons. by f_equal. Qed.

Lemma join_includes (sep p : string) (parts : list string) :
  p ∈ parts → ∃ pre post, join sep parts = pre +:+ p +:+ post.
Proof.
  induction parts as [|x parts IH]; [by intros ?%elem_of_nil|].
  intros [->|Hin]%elem_of_cons.
  - destruct parts as [|y parts].
    + exists "", "". cbn [join]. by rewrite append_nil, append_empty.
    + by exists "", (sep +:+ join sep (y :: parts)).
  - destruct (IH Hin) as (pre & post & E).
    destruct parts as [|y parts]; [by apply elem_of_nil in Hin|].
    exists (x +:+ sep +:+ pre), post.
    change (join sep (x :: y :: parts)) with (x +:+ sep +:+ join sep (y :: parts)).
    by rewrite E, !append_assoc.
Qed.

Lemma join_empty (sep : string) (parts : list string) :
  Forall (λ p, p ≠ "") parts → join sep parts = "" → parts = [].
Proof.
  destruct parts as [|x parts]; [done|]. intros Hall Hjoin.
  apply Forall_cons in Hall as [Hx _].
  destruct x as [|c x]; [done|]. by destruct parts.
Qed.

(** The lines of the summary, by the table of labels. *)
Lemma generateSummary_lines (data : ScopingData) :
  generateSummary data
  = join newline
      (flat_map (λ line, if Js.truthy (line.2 data)
                         then [line.1 +:+ default "" (line.2 data)] else [])
         summaryLabels).
Proof.
  unfold generateSummary, summaryLabels. cbn [flat_map fst snd]. by rewrite app_nil_r.
Qed.

Lemma generateSummary_includes (data : ScopingData) (label : string)
    (get : ScopingData → option string) (v : string) :
  (label, get) ∈ summaryLabels → get data = Some v → v ≠ "" →
  ∃ pre post, generateSummary data = pre +:+ (label +:+ v) +:+ post.
Proof.
  intros Hin Hget Hv. rewrite generateSummary_lines. apply join_includes.
  rewrite list_elem_of_In, in_flat_map. exists (label, get).
  split; [by apply list_elem_of_In|]. cbn [fst snd]. rewrite Hget.
  destruct v as [|c v]; [done|]. by left.
Qed.

(** X7.  The summary has a line, label and value, for every slot that is
    set, and it is empty exactly when the task type, the location, the
    budget, the timeline and the task-specific answer are all unset; the
    reply of a later turn that completes the dialogue contains each of
    those lines. *)
Theorem summary_shows_every_set_slot (data : ScopingData) :
  (∀ (label : string) (get : ScopingData → option string) (v : string),
      (label, get) ∈ summaryLabels → get data = Some v → v ≠ "" →
      Js.includes (generateSummary data) (label +:+ v) = true)
  ∧ (generateSummary data = ""
     ↔ ∀ (label : string) (get : ScopingData → option string),
         (label, get) ∈ summaryLabels → ¬ isSet (get data))
  ∧ (∀ (messages : list Message) (userInput : string)
       (label : string) (get : ScopingData → option string) (v : string),
        1 < length messages →
        Response.isComplete (processUserInput messages userInput data) = true →
        (label, get) ∈ summaryLabels →
        get (Response.updatedData (processUserInput messages userInput data)) = Some v →
        v ≠ "" →
        Js.includes (Response.message (processUserInput messages userInput data))
          (label +:+ v) = true).
Proof.
  split; [|split].
  - intros label get v Hin Hget Hv. apply includes_spec.
    by apply (generateSummary_includes data label get v).
  - rewrite generateSummary_lines. split.
    + intros Hjoin label get Hin Hset. apply join_empty in Hjoin.
      * assert (Hline : label +:+ default "" (get data)
                        ∈ flat_map (λ line, if Js.truthy (line.2 data)
                                            then [line.1 +:+ default "" (line.2 data)]
                                            else []) summaryLabels).
        { rewrite list_elem_of_In, in_flat_map. exists (label, get).
          split; [by apply list_elem_of_In|]. cbn [fst snd].
          unfold isSet in Hset. rewrite Hset. by left. }
        rewrite Hjoin in Hline. by apply elem_of_nil in Hline.
      * rewrite Forall_forall. intros p Hp.
        rewrite list_elem_of_In, in_flat_map in Hp.
        destruct Hp as ([l g] & Hlg & Hp). cbn [fst snd] in Hp.
        destruct (Js.truthy (g data)) eqn:E; [|done].
        destruct Hp as [<-|[]].
        destruct (g data) as [[|c v]|]; try discriminate E.
        unfold summaryLabels in Hlg.
        repeat (destruct Hlg as [[= <- <-]|Hlg]; [done|]). done.
    + intros Hunset.
      assert (Hnil : ∀ lines : list (string * (ScopingData → option string)),
                 (∀ label get, (label, get) ∈ lines → ¬ isSet (get data)) →
                 flat_map (λ line, if Js.truthy (line.2 data)
                                   then [line.1 +:+ default "" (line.2 data)] else [])
                   lines = []).
      { induction lines as [|[l g] lines IH]; [done|]. intros H. cbn [flat_map fst snd].
        destruct (Js.truthy (g data)) eqn:E.
        - exfalso. apply (H l g); [by left | exact E].
        - rewrite IH; [done|]. intros label get Hin. apply (H label get). by right. }
      by rewrite Hnil.
  - intros messages userInput label get v Hlen Hc Hin Hget Hv.
    apply includes_spec.
    destruct (generateSummary_includes _ label get v Hin Hget Hv) as (pre & post & E).
    revert Hc E. unfold processUserInput.
    destruct (length messages <=? 1) eqn:El; [apply Nat.leb_le in El; lia|].
    rewrite reply_updatedData.
    set (d' := store _ userInput data).
    destruct (getMissingInfo d' _) as [|q rest] eqn:Em; [|done].
    intros _ E. cbn [reply Response.message]. rewrite E.
    exists ("Perfect! Here's what I understand:" +:+ newline +:+ newline +:+ pre),
      (post +:+ newline +:+ newline +:+ "Let me find you the best providers...").
    by rewrite !append_assoc.
Qed.

(** ** Budget answers *)

Lemma skipDigits_number (n rest : string) :
  allDigits n = true → skipDigits (n +:+ rest) = skipDigits rest.
Proof.
  induction n as [|c n IH]; [done|]. cbn [allDigits].
  intros [Hc Hn]%andb_true_iff. rewrite append_cons. cbn [skipDigits].
  rewrite Hc. by apply IH.
Qed.

Lemma skipDigits_stop (s : string) : startsDigit s = false → skipDigits s = s.
Proof. destruct s as [|c s]; [done|]. cbn [startsDigit skipDigits]. by intros ->. Qed.

Lemma number_head (n rest : string) :
  isNumber n → ∃ c tail, n +:+ rest = String c tail ∧ Js.isDigit c = true.
Proof.
  intros [Hne Hall]. destruct n as [|c n]; [done|].
  cbn [allDigits] in Hall. apply andb_true_iff in Hall as [Hc _].
  exists c, (n +:+ rest). by rewrite append_cons.
Qed.

Lemma digit_not_dollar (c : ascii) : Js.isDigit c = true → Ascii.eqb c "$" = false.
Proof.
  intros Hc. destruct (Ascii.eqb c "$") eqn:E; [|done].
  apply Ascii.eqb_eq in E. subst c. discriminate Hc.
Qed.

(** The pattern, tried where a whole amount stands, takes that amount. *)
Lemma afterAmount_amount (b post : string) :
  amountAt b post → afterAmount (b +:+ post) = Some post.
Proof.
  intros [n post' Hn Hd Hr | n sep m post' Hn Hm Hsep Hd].
  - rewrite single_append. cbn [afterAmount].
    destruct (number_head n post' Hn) as (c & tail & E & Hc).
    change (Ascii.eqb "$" "$") with true. cbn [andb].
    rewrite E. cbn [startsDigit]. rewrite Hc, <- E.
    rewrite (skipDigits_number n post' (proj2 Hn)), (skipDigits_stop post' Hd).
    by rewrite Hr.
  - rewrite range_append. cbn [afterAmount].
    destruct (number_head n (sep +:+ m +:+ post') Hn) as (c & tail & E & Hc).
    change (Ascii.eqb "$" "$") with true. cbn [andb].
    rewrite E. cbn [startsDigit]. rewrite Hc, <- E.
    rewrite (skipDigits_number n _ (proj2 Hn)).
    destruct (number_head m post' Hm) as (c2 & tail2 & E2 & Hc2).
    pose proof (skipDigits_number m post' (proj2 Hm)) as Hskip.
    rewrite (skipDigits_stop post' Hd) in Hskip.
    destruct Hsep as [-> | ->].
    + change ("-" +:+ m +:+ post') with (String "-" (m +:+ post')).
      cbn [skipDigits]. change (Js.isDigit "-") with false. cbn iota.
      cbn [startsRange]. change (Ascii.eqb "-" "-") with true.
      rewrite E2. cbn [startsDigit andb orb afterSeparator]. rewrite Hc2. cbn [orb].
      rewrite (digit_not_dollar c2 Hc2), <- E2. by rewrite Hskip.
    + change ("-$" +:+ m +:+ post') with (String "-" (String "$" (m +:+ post'))).
      cbn [skipDigits]. change (Js.isDigit "-") with false. cbn iota.
      cbn [startsRange afterSeparator]. change (Ascii.eqb "-" "-") with true.
      change (Ascii.eqb "$" "$") with true.
      change (startsDigit (String "$" (m +:+ post'))) with false.
      rewrite E2. cbn [startsDigit andb orb]. rewrite Hc2, <- E2. by rewrite Hskip.
Qed.

(** An amount is still a whole amount when it stands alone. *)
Lemma amountAt_alone (b post : string) : amountAt b post → amountAt b "".
Proof.
  intros [n post' Hn Hd Hr | n sep m post' Hn Hm Hsep Hd].
  - by apply amount_single.
  - by apply amount_range.
Qed.

Lemma amountAt_nonempty (b post : string) : amountAt b post → b ≠ "".
Proof.
  intros Hb Hempty. apply (f_equal String.length) in Hempty.
  destruct Hb; rewrite length_append in Hempty; simpl in Hempty; lia.
Qed.

Lemma extractBudget_amount (b post : string) :
  amountAt b post → extractBudget (b +:+ post) = Some b.
Proof.
  intros Hb. unfold extractBudget.
  assert (Hhead : ∃ tail, b +:+ post = String "$" tail).
  { destruct Hb; [rewrite single_append | rewrite range_append]; by eexists. }
  destruct Hhead as [tail Htail].
  pose proof (afterAmount_amount b post Hb) as Hafter. rewrite Htail in *.
  cbn [Regex.search Regex.skip]. rewrite matchAt_budget, Hafter.
  cbn [fmap option_fmap option_map]. by rewrite <- Htail, consumed_append.
Qed.

(** X8.  What a later turn stores for a reply is stable: given again as the
    reply to the same question it is stored unchanged.  For the budget this
    means that the amount the pattern takes out of a text is found whole,
    and alone, when the pattern is run on the amount itself. *)
Theorem stored_answer_is_stable (q : questionType) (u : string) :
  answerFor q (answerFor q u) = answerFor q u
  ∧ ∀ b, extractBudget u = Some b →
         extractBudget b = Some b ∧ answerFor QBudget u = b ∧ b ≠ "".
Proof.
  assert (Hb : ∀ text b, extractBudget text = Some b →
                         extractBudget b = Some b ∧ b ≠ "").
  { intros text b E. pose proof (extractBudget_spec text) as Hspec. rewrite E in Hspec.
    destruct Hspec as (pre & post & _ & _ & Hamount).
    apply amountAt_alone in Hamount. split.
    - rewrite <- (append_empty b) at 1. by apply extractBudget_amount.
    - by apply (amountAt_nonempty b ""). }
  split.
  - destruct q; try reflexivity. cbn [answerFor].
    destruct (extractBudget u) as [b|] eqn:E.
    + destruct (Hb u b E) as [Hsame Hne].
      rewrite (strOr_Some b u Hne), Hsame. by apply strOr_Some.
    + cbn [Js.strOr]. by rewrite E.
  - intros b E. destruct (Hb u b E) as [Hsame Hne]. split; [done|]. split; [|done].
    cbn [answerFor]. rewrite E. by apply strOr_Some.
Qed.

(** ** Blank submits and the keyboard *)








(** ** The completion flag and the slots *)

Lemma session_snoc (turns : list (Collaborators * option string))
    (c : Collaborators) (text : option string) :
  session (turns ++ [(c, text)]) = handleSubmit c text (session turns).
Proof. apply run_snoc. Qed.

Lemma handleSubmit_length c u st :
  nonBlank u →
  length (dropThinking (messages st))
  < length (dropThinking (messages (handleSubmit c (Some u) st))).
Proof.
  intros Hu. destruct (handleSubmit_messages c u st Hu) as (mid & tail & ->).
  rewrite !length_app. cbn [length]. lia.
Qed.

(** From the welcome message on, the completion flag is set exactly when
    nothing is missing, and a message is always on screen. *)
Lemma session_invariant (turns : list (Collaborators * option string)) :
  1 ≤ length (dropThinking (messages (session turns)))
  ∧ (isComplete (session turns) = true → started (session turns))
  ∧ (isComplete (session turns) = true
     ↔ getMissingInfo (scopingData (session turns)) "" = []).
Proof.
  induction turns as [|[c text] turns IH] using rev_ind.
  - split; [vm_compute; lia|]. split; [done|]. by vm_compute.
  - rewrite session_snoc. destruct IH as (Hlen & Hstarted & Hiff).
    destruct (handleSubmit_cases c text (session turns)) as [->|(u & Hu & ->)]; [done|].
    pose proof (handleSubmit_length c u (session turns) Hu) as Hgrow.
    split; [lia|]. split; [intros _; unfold started; lia|].
    rewrite handleSubmit_isComplete, handleSubmit_scopingData by done.
    rewrite <- turn_isComplete.
    destruct (isComplete (session turns)) eqn:Ec; [|done].
    destruct (resubmit_complete (messages (session turns)) u
                (scopingData (session turns))) as [_ ->].
    + by apply started_length, Hstarted.
    + by apply Hiff.
    + done.
Qed.

(** X11.  From the welcome message on, whatever is submitted and whatever
    the collaborators answer, the completion flag of the component is set
    exactly when no required field is missing from its slots, that is, when
    the completion invariant holds of them; and once it is set, a further
    submit changes no slot and leaves the flag set. *)
Theorem completion_flag_tracks_slots (turns : list (Collaborators * option string)) :
  (isComplete (session turns) = true
   ↔ completionInvariant (scopingData (session turns)))
  ∧ (isComplete (session turns) = true →
     ∀ (c : Collaborators) (text : option string),
       scopingData (handleSubmit c text (session turns)) = scopingData (session turns)
       ∧ isComplete (handleSubmit c text (session turns)) = true).
Proof.
  destruct (session_invariant turns) as (Hlen & Hstarted & Hiff).
  split; [by rewrite Hiff, policy_empty_iff|].
  intros Hc c text.
  destruct (handleSubmit_cases c text (session turns)) as [->|(u & Hu & ->)]; [done|].
  destruct (resubmit_complete (messages (session turns)) u
              (scopingData (session turns))) as [Hsame Hagain].
  - by apply started_length, Hstarted.
  - by apply Hiff.
  - rewrite handleSubmit_scopingData, handleSubmit_isComplete by done.
    by rewrite Hc.
Qed.

(** ** The calls to the collaborators *)

(** What one accepted submit does to the request cells and the call logs:
    nothing, or one generative call that failed, or one generative call
    followed by one persistence call. *)
Lemma handleSubmit_calls c u st :
  nonBlank u →
  let r := processUserInput (messages st) u (scopingData st) in
  let st' := handleSubmit c (Some u) st in
  (Response.isComplete r = false
   ∧ isComplete st' = isComplete st ∧ parsedRequest st' = parsedRequest st
   ∧ requestId st' = requestId st ∧ generateCalls st' = generateCalls st
   ∧ createCalls st' = createCalls st)
  ∨ (Response.isComplete r = true
     ∧ generateFinalRequest (generateObject c) (Response.updatedData r) = None
     ∧ isComplete st' = true ∧ parsedRequest st' = parsedRequest st
     ∧ requestId st' = requestId st ∧ generateCalls st' = S (generateCalls st)
     ∧ createCalls st' = createCalls st)
  ∨ (∃ finalRequest,
       Response.isComplete r = true
       ∧ generateFinalRequest (generateObject c) (Response.updatedData r)
         = Some finalRequest
       ∧ isComplete st' = true ∧ parsedRequest st' = Some finalRequest
       ∧ requestId st'
         = match create c (requestRecord c (Response.updatedData r) u finalRequest) with
           | Some newRequest => Some (RequestRecord.id newRequest)
           | None => requestId st
           end
       ∧ generateCalls st' = S (generateCalls st)
       ∧ createCalls st'
         = createCalls st ++ [requestRecord c (Response.updatedData r) u finalRequest]).
Proof.
  intros Hu r st'. unfold st', handleSubmit.
  rewrite (strOr_Some u _ (nonBlank_nonempty u Hu)).
  unfold nonBlank in Hu. rewrite Hu. cbn [negb]. fold r.
  destruct (Response.isComplete r); [|by left].
  destruct (generateFinalRequest _ _) as [finalRequest|]; [|by right; left].
  right; right. exists finalRequest.
  by destruct (create c _).
Qed.


(** X13.  When the generative call succeeds and the persistence call
    rejects, the turn ends with the error message as the last message; the
    request just built is kept and the record has been handed over, but no
    request id is stored, so the provider matches are not shown if no id was
    held before, and the text box is gone because the dialogue is
    complete. *)
Theorem persistence_failure_keeps_request (c : Collaborators) (u : string) (st : State)
    (finalRequest : ParsedRequest.t) :
  nonBlank u →
  Response.isComplete (processUserInput (messages st) u (scopingData st)) = true →
  generateFinalRequest (generateObject c)
    (Response.updatedData (processUserInput (messages st) u (scopingData st)))
  = Some finalRequest →
  create c (requestRecord c
              (Response.updatedData (processUserInput (messages st) u (scopingData st)))
              u finalRequest) = None →
  let st' := handleSubmit c (Some u) st in
  last (messages st') = Some errorMessage
  ∧ parsedRequest st' = Some finalRequest
  ∧ requestId st' = requestId st
  ∧ createCalls st'
    = createCalls st
      ++ [requestRecord c
            (Response.updatedData (processUserInput (messages st) u (scopingData st)))
            u finalRequest]
  ∧ generateCalls st' = S (generateCalls st)
  ∧ isComplete st' = true
  ∧ showsInputArea st' = false
  ∧ (requestId st = None → showsProviderMatches st' = false).
Proof.
  intros Hu Hc Hgen Hdb st'. unfold st', handleSubmit.
  rewrite (strOr_Some u _ (nonBlank_nonempty u Hu)).
  unfold nonBlank in Hu. rewrite Hu, Hc, Hgen, Hdb. cbn [negb].
  cbn [messages parsedRequest requestId createCalls generateCalls isComplete].
  split; [by rewrite last_snoc|]. do 6 (split; [done|]).
  intros Hid. unfold showsProviderMatches. cbn [requestId]. rewrite Hid.
  apply andb_false_r.
Qed.

(** ** What is persisted *)

Lemma session_conversation (c0 : Collaborators) (first : string)
    (turns : list (Collaborators * option string)) :
  conversation c0 first turns = session ((c0, Some first) :: turns).
Proof. reflexivity. Qed.

Lemma conversation_snoc (c0 : Collaborators) (first : string)
    (turns : list (Collaborators * option string))
    (c : Collaborators) (text : option string) :
  conversation c0 first (turns ++ [(c, text)])
  = handleSubmit c text (conversation c0 first turns).
Proof. apply run_snoc. Qed.

Lemma orElse_set (a b : option string) : isSet a → orElse a b = a.
Proof. unfold isSet, orElse. by intros ->. Qed.

(** A record in the log after an accepted submit was there before, or was
    built in this submit from the slots it leaves. *)
Lemma new_record c u st (record : RequestRecord.t) :
  nonBlank u →
  record ∈ createCalls (handleSubmit c (Some u) st) →
  record ∈ createCalls st
  ∨ ∃ finalRequest,
      getMissingInfo (scopingData (handleSubmit c (Some u) st)) "" = []
      ∧ generateFinalRequest (generateObject c) (scopingData (handleSubmit c (Some u) st))
        = Some finalRequest
      ∧ record = requestRecord c (scopingData (handleSubmit c (Some u) st)) u finalRequest.
Proof.
  intros Hu. rewrite handleSubmit_scopingData by done.
  destruct (handleSubmit_calls c u st Hu)
    as [(_ & _ & _ & _ & _ & ->)
       |[(_ & _ & _ & _ & _ & _ & ->)
        |(finalRequest & Hc & Hgen & _ & _ & _ & _ & ->)]]; try by left.
  intros [Hin| ->%list_elem_of_singleton]%elem_of_app; [by left|].
  right. exists finalRequest. split; [by apply turn_isComplete|]. done.
Qed.

(** The record built from complete slots that hold a first utterance and
    a task type. *)
Lemma record_fields c u (d : ScopingData) (first : string)
    (finalRequest : ParsedRequest.t) :
  nonBlank first →
  taskType d = Some (extractTaskType first) →
  details d = Some first →
  getMissingInfo d "" = [] →
  generateFinalRequest (generateObject c) d = Some finalRequest →
  let record := requestRecord c d u finalRequest in
  RequestRecord.inputText record = first
  ∧ RequestRecord.parsedTaskType record = Some (extractTaskType first)
  ∧ isSet (RequestRecord.parsedLocation record)
  ∧ RequestRecord.parsedLocation record = location d
  ∧ RequestRecord.finalPrice record = RequestRecord.suggestedPrice record
  ∧ RequestRecord.status record = "processing".
Proof.
  intros Hfirst Htype Hdetails Hmissing Hgen record.
  apply policy_empty_iff in Hmissing as (Hloc & _).
  assert (Htypeset : isSet (taskType d)).
  { rewrite Htype. unfold isSet. cbn [Js.truthy].
    pose proof (extractTaskType_nonempty first). by destruct (extractTaskType first). }
  unfold generateFinalRequest in Hgen.
  destruct (generateObject c) as [|[object|]]; try discriminate Hgen.
  injection Hgen as <-. unfold record, requestRecord.
  cbn [RequestRecord.inputText RequestRecord.parsedTaskType RequestRecord.parsedLocation
       RequestRecord.finalPrice RequestRecord.suggestedPrice RequestRecord.status
       ParsedRequest.taskType ParsedRequest.location ParsedRequest.suggestedPrice].
  rewrite !orElse_set by done. rewrite Hdetails, Htype.
  split; [by apply strOr_Some, nonBlank_nonempty|]. done.
Qed.

(** X14.  In a conversation begun after the welcome message, every record
    handed to the persistence collaborator carries the first utterance as
    its input text, the task type extracted from that utterance, the
    location held in the location slot (and still held there afterwards),
    the status processing and a final price equal to the suggested price:
    the task type and the location proposed by the generative collaborator
    are never used. *)
Theorem persisted_record_comes_from_slots (c0 : Collaborators) (first : string)
    (turns : list (Collaborators * option string)) (record : RequestRecord.t) :
  nonBlank first →
  record ∈ createCalls (conversation c0 first turns) →
  RequestRecord.inputText record = first
  ∧ RequestRecord.parsedTaskType record = Some (extractTaskType first)
  ∧ isSet (RequestRecord.parsedLocation record)
  ∧ RequestRecord.parsedLocation record
    = location (scopingData (conversation c0 first turns))
  ∧ RequestRecord.finalPrice record = RequestRecord.suggestedPrice record
  ∧ RequestRecord.status record = "processing".
Proof.
  intros Hfirst. revert record.
  induction turns as [|[c text] turns IH] using rev_ind; intros record Hin.
  - destruct (conversation_started c0 first [] Hfirst) as (Hst & Htype & Hdetails).
    revert Hin Htype Hdetails. unfold conversation. cbn [run]. intros Hin Htype Hdetails.
    apply (new_record c0 first (welcome initialState) record Hfirst) in Hin
      as [Hin|(finalRequest & Hmissing & Hgen & ->)]; [by apply elem_of_nil in Hin|].
    by apply (record_fields c0 first).
  - destruct (conversation_started c0 first (turns ++ [(c, text)]) Hfirst)
      as (_ & Htype & Hdetails).
    destruct (conversation_started c0 first turns Hfirst) as (Hst & _ & _).
    revert Hin Htype Hdetails. rewrite conversation_snoc.
    destruct (handleSubmit_cases c text (conversation c0 first turns))
      as [->|(u & Hu & ->)]; [intros Hin _ _; by apply IH|].
    intros Hin Htype Hdetails.
    apply (new_record c u _ record Hu) in Hin
      as [Hin|(finalRequest & Hmissing & Hgen & ->)].
    + destruct (IH record Hin) as (Hi & Ht & Hset & Hl & Hrest).
      do 3 (split; [done|]). split; [|done].
      rewrite Hl. symmetry.
      apply (submit_keeps_set c (Some u) _ QLocation Hst). cbn [slot]. by rewrite <- Hl.
    + by apply (record_fields c u).
Qed.

(** ** The message list *)






(** ** Completion by the opening message *)

Lemma extractTimeline_nonempty (u v : string) : extractTimeline u = Some v → v ≠ "".
Proof.
  unfold extractTimeline.
  repeat match goal with |- context [if ?b then _ else _] => destruct b end;
    intros [= <-]; done.
Qed.

Lemma extractLocation_nonempty (u l : string) : extractLocation u = Some l → l ≠ "".
Proof.
  intros [(c & d & tail & -> & _) _]%extractLocation_shape. done.
Qed.

Lemma extractBudget_nonempty (u b : string) : extractBudget u = Some b → b ≠ "".
Proof.
  intros E. pose proof (extractBudget_spec u) as Hspec. rewrite E in Hspec.
  destruct Hspec as (pre & post & _ & _ & Hamount).
  by apply (amountAt_nonempty b post).
Qed.

Lemma assignIfFound_fresh (x : option string) :
  (∀ v, x = Some v → v ≠ "") → (isSet (assignIfFound x None) ↔ is_Some x).
Proof.
  intros Hne. unfold isSet, assignIfFound.
  destruct x as [[|a v]|]; cbn [Js.truthy Js.truthyStr].
  - by destruct (Hne "").
  - split; [by eexists | done].
  - split; [done | by intros [? ?]].
Qed.

(** The task types without a follow-up question. *)
Lemma noFollowUp_categories (u : string) :
  ¬ hasFollowUp (Some (extractTaskType u))
  ↔ extractTaskType u ∈ ["Repair Services"; "General Service"].
Proof.
  rewrite <- truthyMember_question. unfold extractTaskType.
  repeat match goal with |- context [if ?b then _ else _] => destruct b end;
    (split; [intros H; try (by destruct H); set_solver | intros H; try discriminate]);
    repeat (apply elem_of_cons in H as [H|H]; [discriminate H|]);
    by apply elem_of_nil in H.
Qed.

(** X16.  The opening message alone completes the dialogue exactly when a
    location, an amount and a timeline keyword are all found in it and the
    task type extracted from it is one of the two without a follow-up
    question; every other opening message is answered with a question. *)
Theorem opening_message_completes (c : Collaborators) (u : string) :
  nonBlank u →
  (isComplete (handleSubmit c (Some u) (welcome initialState)) = true
   ↔ is_Some (extractLocation u) ∧ is_Some (extractBudget u)
     ∧ is_Some (extractTimeline u)
     ∧ extractTaskType u ∈ ["Repair Services"; "General Service"])
  ∧ (isComplete (handleSubmit c (Some u) (welcome initialState)) = false →
     ∃ (q : questionType) (opening : string),
       head (getMissingInfo
               (scopingData (handleSubmit c (Some u) (welcome initialState))) "")
       = Some q
       ∧ content <$> last (messages (handleSubmit c (Some u) (welcome initialState)))
         = Some (opening +:+ render (getNextQuestion q (Some (extractTaskType u))))).
Proof.
  intros Hu.
  assert (Hdata : scopingData (handleSubmit c (Some u) (welcome initialState))
                  = mkScopingData (Some (extractTaskType u))
                      (assignIfFound (extractLocation u) None)
                      (assignIfFound (extractBudget u) None)
                      (assignIfFound (extractTimeline u) None)
                      (Some u) None).
  { rewrite handleSubmit_scopingData by done. by rewrite first_turn_data. }
  assert (Hflag : isComplete (handleSubmit c (Some u) (welcome initialState)) = true
                  ↔ getMissingInfo
                      (scopingData (handleSubmit c (Some u) (welcome initialState))) ""
                    = []).
  { rewrite handleSubmit_isComplete by done.
    rewrite (handleSubmit_scopingData c u _ Hu), <- turn_isComplete. done. }
  split.
  - rewrite Hflag, policy_empty_iff, Hdata. unfold completionInvariant.
    cbn [location budget timeline taskType specific additionalInfo mbind option_bind].
    rewrite (assignIfFound_fresh _ (extractLocation_nonempty u)),
      (assignIfFound_fresh _ (extractBudget_nonempty u)),
      (assignIfFound_fresh _ (extractTimeline_nonempty u)),
      <- noFollowUp_categories.
    unfold isSet. cbn [Js.truthy]. intuition congruence.
  - intros Hc.
    destruct (getMissingInfo
                (scopingData (handleSubmit c (Some u) (welcome initialState))) "")
      as [|q rest] eqn:Em.
    { destruct Hflag as [_ Hflag]. rewrite Hflag in Hc; done. }
    exists q. destruct (submit_asks c u _ q rest Hu Em) as (_ & opening & Hlast).
    exists opening. split; [done|]. rewrite Hlast. by rewrite Hdata.
Qed.

(** ** Keywords that hide one another *)

Lemma includes_part (s kw part : string) :
  Js.includes kw part = true → Js.includes s kw = true → Js.includes s part = true.
Proof.
  rewrite !includes_spec. intros (pre & post & ->) (before & after & ->).
  exists (before +:+ pre), (post +:+ after). by rewrite !append_assoc.
Qed.

(** X17.  A text that says "this weekend", in any letter case, is never
    given the timeline This weekend: it contains "this week", which is
    tested first, so unless an earlier keyword applies its timeline is This
    week. *)
Theorem this_weekend_reads_as_this_week (text : string) :
  Js.includes (Js.toLowerCase text) "this weekend" = true →
  extractTimeline text ≠ Some "This weekend"
  ∧ (Js.includes (Js.toLowerCase text) "today" = false →
     Js.includes (Js.toLowerCase text) "asap" = false →
     Js.includes (Js.toLowerCase text) "tomorrow" = false →
     extractTimeline text = Some "This week").
Proof.
  intros H.
  assert (Hweek : Js.includes (Js.toLowerCase text) "this week" = true).
  { by apply (includes_part _ "this weekend"). }
  unfold extractTimeline. rewrite Hweek. split.
  - destruct (_ || _); [done|]. by destruct (Js.includes _ "tomorrow").
  - by intros -> -> ->.
Qed.

(** "Any time THIS WEEKEND" is read as This week. *)
Lemma this_weekend_reads_as_this_week_witness :
  Js.includes (Js.toLowerCase "Any time THIS WEEKEND") "this weekend" = true
  ∧ extractTimeline "Any time THIS WEEKEND" ≠ Some "This weekend".
Proof.
  assert (H : Js.includes (Js.toLowerCase "Any time THIS WEEKEND") "this weekend" = true)
    by (vm_compute; reflexivity).
  split; [exact H|].
  destruct (this_weekend_reads_as_this_week "Any time THIS WEEKEND" H) as [Hne _].
  exact Hne.
Defined.

(** ** The further properties at work on sample inputs *)

(** The location of "Need a cleaner in Brooklyn, NY today" stands in the
    text. *)
Lemma extractLocation_returns_place_witness :
  extractLocation "Need a cleaner in Brooklyn, NY today" = Some "Brooklyn, NY"
  ∧ ∃ before after : string,
      "Need a cleaner in Brooklyn, NY today" = before +:+ "Brooklyn, NY" +:+ after.
Proof.
  assert (H : extractLocation "Need a cleaner in Brooklyn, NY today"
              = Some "Brooklyn, NY") by (vm_compute; reflexivity).
  split; [exact H|].
  destruct (extractLocation_returns_place _ _ H) as [Hpart _]. exact Hpart.
Defined.

(** A text in small letters has no location. *)
Lemma extractLocation_needs_capital_witness :
  Js.toLowerCase "need my wifi fixed" = "need my wifi fixed"
  ∧ extractLocation "need my wifi fixed" = None.
Proof.
  assert (H : Js.toLowerCase "need my wifi fixed" = "need my wifi fixed")
    by (vm_compute; reflexivity).
  split; [exact H|].
  destruct (extractLocation_needs_capital "need my wifi fixed" (or_intror H))
    as [Hnone _].
  exact Hnone.
Defined.

(** "Meet me at The Mall" has a location. *)
Lemma extractLocation_after_at_witness :
  Js.isUpper "T" = true ∧ Js.isLower "h" = true
  ∧ is_Some (extractLocation "Meet me at The Mall").
Proof.
  assert (Hc : Js.isUpper "T" = true) by reflexivity.
  assert (Hd : Js.isLower "h" = true) by reflexivity.
  split; [exact Hc|]. split; [exact Hd|].
  exact (extractLocation_after_at "Meet me " "e Mall" "T" "h" Hc Hd).
Defined.

(** The budget question asked of empty slots. *)
Lemma missing_field_has_question_witness :
  QBudget ∈ getMissingInfo emptyData ""
  ∧ render (getNextQuestion QBudget (taskType emptyData)) ≠ "".
Proof.
  assert (H : QBudget ∈ getMissingInfo emptyData "")
    by (apply list_elem_of_further, list_elem_of_here).
  split; [exact H|]. exact (missing_field_has_question emptyData "" QBudget H).
Defined.

(** After "Looking for a photographer" the location question comes with
    four quick replies. *)
Lemma quick_reply_answers_question_witness :
  nonBlank "Looking for a photographer"
  ∧ getMissingInfo
      (scopingData (conversation sampleCollaborators "Looking for a photographer" [])) ""
    = [QLocation; QBudget; QTimeline; QSpecific]
  ∧ ∃ options : list string,
      getQuestionSuggestions QLocation
        (taskType (scopingData
                     (conversation sampleCollaborators "Looking for a photographer" [])))
      = Chips options
      ∧ length options = 4.
Proof.
  assert (Hu : nonBlank "Looking for a photographer") by (vm_compute; reflexivity).
  assert (Hm : getMissingInfo
                 (scopingData
                    (conversation sampleCollaborators "Looking for a photographer" [])) ""
               = [QLocation; QBudget; QTimeline; QSpecific])
    by (vm_compute; reflexivity).
  split; [exact Hu|]. split; [exact Hm|].
  destruct (quick_reply_answers_question sampleCollaborators
              "Looking for a photographer" [] QLocation [QBudget; QTimeline; QSpecific]
              Hu Hm) as (options & Hq & Hlen & _).
  exists options. split; [exact Hq | exact Hlen].
Defined.


(** The last answer of the photographer conversation, with a persistence
    collaborator that rejects. *)
Lemma persistence_failure_keeps_request_witness :
  nonBlank "Portrait session"
  ∧ create unsavedCollaborators
      (requestRecord unsavedCollaborators
         (Response.updatedData
            (processUserInput (messages beforeLastAnswer) "Portrait session"
               (scopingData beforeLastAnswer)))
         "Portrait session" sampleRequest) = None
  ∧ last (messages (handleSubmit unsavedCollaborators (Some "Portrait session")
                      beforeLastAnswer)) = Some errorMessage
  ∧ parsedRequest (handleSubmit unsavedCollaborators (Some "Portrait session")
                     beforeLastAnswer) = Some sampleRequest
  ∧ showsProviderMatches (handleSubmit unsavedCollaborators (Some "Portrait session")
                            beforeLastAnswer) = false.
Proof.
  assert (Hu : nonBlank "Portrait session") by (vm_compute; reflexivity).
  assert (Hc : Response.isComplete
                 (processUserInput (messages beforeLastAnswer) "Portrait session"
                    (scopingData beforeLastAnswer)) = true)
    by (vm_compute; reflexivity).
  assert (Hgen : generateFinalRequest (generateObject unsavedCollaborators)
                   (Response.updatedData
                      (processUserInput (messages beforeLastAnswer) "Portrait session"
                         (scopingData beforeLastAnswer)))
                 = Some sampleRequest)
    by (vm_compute; reflexivity).
  assert (Hdb : create unsavedCollaborators
                  (requestRecord unsavedCollaborators
                     (Response.updatedData
                        (processUserInput (messages beforeLastAnswer) "Portrait session"
                           (scopingData beforeLastAnswer)))
                     "Portrait session" sampleRequest) = None)
    by reflexivity.
  split; [exact Hu|]. split; [exact Hdb|].
  destruct (persistence_failure_keeps_request unsavedCollaborators "Portrait session"
              beforeLastAnswer sampleRequest Hu Hc Hgen Hdb)
    as (Hlast & Hparsed & _ & _ & _ & _ & _ & Hhidden).
  split; [exact Hlast|]. split; [exact Hparsed|].
  apply Hhidden. vm_compute. reflexivity.
Defined.

(** The record of the photographer conversation. *)
Lemma persisted_record_comes_from_slots_witness :
  nonBlank "Looking for a photographer"
  ∧ sampleRecord
    ∈ createCalls (conversation sampleCollaborators "Looking for a photographer"
                     fourAnswers)
  ∧ RequestRecord.parsedLocation sampleRecord
    = location (scopingData (conversation sampleCollaborators
                               "Looking for a photographer" fourAnswers)).
Proof.
  assert (Hu : nonBlank "Looking for a photographer") by (vm_compute; reflexivity).
  assert (Hin : sampleRecord
                ∈ createCalls (conversation sampleCollaborators
                                 "Looking for a photographer" fourAnswers)).
  { assert (E : createCalls (conversation sampleCollaborators
                               "Looking for a photographer" fourAnswers)
                = [sampleRecord]) by (vm_compute; reflexivity).
    rewrite E. apply list_elem_of_here. }
  split; [exact Hu|]. split; [exact Hin|].
  destruct (persisted_record_comes_from_slots sampleCollaborators
              "Looking for a photographer" fourAnswers sampleRecord Hu Hin)
    as (_ & _ & _ & Hloc & _).
  exact Hloc.
Defined.


(** "Fix my sink in Austin, TX today for $50" completes the dialogue at
    once. *)
Lemma opening_message_completes_witness :
  nonBlank fullOpening
  ∧ isComplete (handleSubmit sampleCollaborators (Some fullOpening)
                  (welcome initialState)) = true.
Proof.
  assert (Hu : nonBlank fullOpening) by (vm_compute; reflexivity).
  split; [exact Hu|].
  destruct (opening_message_completes sampleCollaborators fullOpening Hu)
    as [[_ Hcomplete] _].
  apply Hcomplete.
  assert (El : extractLocation fullOpening = Some "Austin, TX")
    by (vm_compute; reflexivity).
  assert (Eb : extractBudget fullOpening = Some "$50") by (vm_compute; reflexivity).
  assert (Et : extractTimeline fullOpening = Some "Today") by (vm_compute; reflexivity).
  assert (Ek : extractTaskType fullOpening = "Repair Services")
    by (vm_compute; reflexivity).
  rewrite El, Eb, Et, Ek.
  split; [by eexists|]. split; [by eexists|]. split; [by eexists|].
  apply list_elem_of_here.
Defined.
